(** * YouTube sentiment analysis: the analysis pipeline of [app.py]

    A shallow embedding of the pipeline of [src/app.py] (identifier
    extraction, bounded comment collection, sentiment classification,
    aggregation, top-liked selection and the single-slot report store) and the
    properties its specification states about it.

    Conventions of the embedding.
    - A Python [str] is a [list ascii]; every character is one code point the
      type [ascii] can hold (U+0000 to U+00FF).
    - A Python exception is a value of [exn] carried by [result].
    - The externals (video platform, inference engine, word-cloud renderer,
      document compiler) are parameters; every call to one of them is recorded
      in a trace of [call]s, so that "is not invoked" is a statement about the
      trace.  The renderer can refuse a text: it then raises, and the
      exception leaves [home], which has no handler for it.
    - The module-level dictionary [report_data] is a [gmap string pyval] that
      is passed in and out of the two routes. *)

From Stdlib Require Import ZArith Ascii String DecimalString.
From stdpp Require Import gmap strings list sorting.

Open Scope Z_scope.

(** ** Python strings *)

Abbreviation str := (list ascii).

(** A string literal of the source. *)
Definition lit (s : string) : str := list_ascii_of_string s.

(** [s.startswith(p)] *)
Fixpoint starts_with (p s : str) : bool :=
  match p, s with
  | [], _ => true
  | _ :: _, [] => false
  | a :: p', b :: s' => Ascii.eqb a b && starts_with p' s'
  end.

(** [sub in s] *)
Fixpoint contains (sub s : str) : bool :=
  match s with
  | [] => starts_with sub []
  | _ :: s' => starts_with sub s || contains sub s'
  end.

(** The text before and after the leftmost occurrence of [sep] in [s], when
    there is one (the first and last components of [s.partition(sep)]). *)
Fixpoint find_split (sep s : str) : option (str * str) :=
  if starts_with sep s then Some ([], drop (length sep) s)
  else match s with
       | [] => None
       | c :: s' =>
           match find_split sep s' with
           | Some (a, b) => Some (c :: a, b)
           | None => None
           end
       end.

(** [s.split(sep)] for a non-empty [sep]: the pieces between the successive
    non-overlapping occurrences of [sep], found from the left.  Every
    occurrence consumes a character, so [length s] rounds are enough
    (lemma [split_fuel_enough]). *)
Fixpoint split_fuel (fuel : nat) (sep s : str) : list str :=
  match fuel with
  | O => [s]
  | S n =>
      match find_split sep s with
      | None => [s]
      | Some (a, b) => a :: split_fuel n sep b
      end
  end.

Definition split (sep s : str) : list str := split_fuel (length s) sep s.

(** ** Exceptions *)

Inductive exn := TypeError | IndexError | KeyError | ValueError.

Inductive result (A : Type) :=
| Return (a : A)
| Raise (e : exn).
Arguments Return {A} a.
Arguments Raise {A} e.

#[global] Instance result_ret : MRet result := @Return.
#[global] Instance result_bind : MBind result := fun A B f m =>
  match m with
  | Return a => f a
  | Raise e => Raise e
  end.

(** [l[i]] on a list, for an index that is not negative. *)
Definition subscript {A} (l : list A) (i : nat) : result A :=
  match l !! i with
  | Some x => Return x
  | None => Raise IndexError
  end.

(** ** Extract Video ID (app.py, lines 41-48)

    [link] is whatever [request.form.get("link")] gave: [None] or a string.
    The operator [in] raises [TypeError] on [None]. *)
Definition extract_video_id (link : option str) : result (option str) :=
  match link with
  | None => Raise TypeError
  | Some link =>
      if contains (lit "v=") link then
        part ← subscript (split (lit "v=") link) 1;
        id ← subscript (split (lit "&") part) 0;
        Return (Some id)
      else if contains (lit "youtu.be/") link then
        part ← subscript (split (lit "youtu.be/") link) 1;
        id ← subscript (split (lit "?") part) 0;
        Return (Some id)
      else if contains (lit "shorts/") link then
        part ← subscript (split (lit "shorts/") link) 1;
        id ← subscript (split (lit "?") part) 0;
        Return (Some id)
      else Return None
  end.


(** ** Text helpers of the classifier *)

(** The shortest match of [.*?>] at the head of [s]: [.] matches every
    character but a newline, so the match ends at the first [>] unless a
    newline comes before it.  The result is what follows the match. *)
Fixpoint lazy_until_gt (s : str) : option str :=
  match s with
  | [] => None
  | c :: s' =>
      if Ascii.eqb c ">" then Some s'
      else if Ascii.eqb c "010" then None
      else lazy_until_gt s'
  end.

(** [re.sub] with the pattern [<.*?>] and the empty replacement, scanning [s]
    from the left.  Outside a match, a [<]
    that the pattern matches opens a match, any other character is copied;
    inside a match characters are dropped up to and including the first [>]. *)
Fixpoint sub_tags_from (inside : bool) (s : str) : str :=
  match s with
  | [] => []
  | c :: s' =>
      if inside then
        if Ascii.eqb c ">" then sub_tags_from false s' else sub_tags_from true s'
      else if Ascii.eqb c "<" && bool_decide (is_Some (lazy_until_gt s')) then
        sub_tags_from true s'
      else c :: sub_tags_from false s'
  end.

Definition re_sub_tags (s : str) : str := sub_tags_from false s.

(** [c.isspace()] on the code points below 256: tab to carriage return, the
    four separators U+001C to U+001F, space, U+0085 and U+00A0. *)
Definition isspace (c : ascii) : bool :=
  let n := nat_of_ascii c in
  ((9 <=? n) && (n <=? 13) || (28 <=? n) && (n <=? 32) || (n =? 133) || (n =? 160))%nat.

Fixpoint lstrip (s : str) : str :=
  match s with
  | [] => []
  | c :: s' => if isspace c then lstrip s' else s
  end.

Definition rstrip (s : str) : str := rev (lstrip (rev s)).

(** [s.strip()] *)
Definition strip (s : str) : str := rstrip (lstrip s).

(** Truth value of a string: [not s] holds for the empty string only. *)
Definition truthy (s : str) : bool :=
  match s with
  | [] => false
  | _ :: _ => true
  end.

(** Upper case of one character; exact on the code points below 128, which is
    where the letters of the two searched words live. *)
Definition upper_char (c : ascii) : ascii :=
  let n := nat_of_ascii c in
  if ((97 <=? n) && (n <=? 122))%nat then ascii_of_nat (n - 32) else c.

(** [s.upper()] *)
Definition upper (s : str) : str := map upper_char s.

(** ** Data of the pipeline *)

Inductive sentiment := Positive | Negative | Neutral.

#[global] Instance sentiment_eq_dec : EqDecision sentiment.
Proof. solve_decision. Defined.

(** A collected comment: the pair [(comment_text, like_count)]. *)
Abbreviation comment := (str * Z)%type.

(** [item["snippet"]["topLevelComment"]["snippet"]] of a comment thread:
    [textDisplay] is always there, [likeCount] is read with [.get]. *)
Record raw_comment := {
  textDisplay : str;
  likeCount : option Z }.

(** One answer of [commentThreads().list(...).execute()]: both keys are read
    with [.get]. *)
Record threads_page := {
  items : option (list raw_comment);
  nextPageToken : option str }.

Inductive threads_response :=
| ThreadsHttpError
| ThreadsOk (page : threads_page).

(** A JSON scalar of the statistics block. *)
Inductive jsonval := JInt (z : Z) | JStr (s : str).

(** [response["items"][0]] of [videos().list(...).execute()]. *)
Record video_item := {
  snippet_title : str;
  viewCount : option jsonval;
  stat_likeCount : option jsonval;
  commentCount : option jsonval }.

Inductive videos_response :=
| VideosHttpError
| VideosOk (video_items : list video_item).

(** The dictionary [get_video_stats] returns. *)
Record stats := {
  title : str;
  views : jsonval;
  likes : jsonval;
  comments_count : jsonval }.

(** Values held by [report_data]. *)
Inductive pyval :=
| PInt (z : Z)
| PBytes (b : list Byte.byte)
| PStats (vs : stats).

(** Calls to the external collaborators, in the order they are made. *)
Inductive call :=
| VideosList (video_id : str)
| CommentThreadsList (video_id : str) (maxResults : Z) (pageToken : option str)
| SentimentPipeline (text : str)
| WordCloudGenerate (text : str).

(** The external capabilities the pipeline is given. *)
Record services := {
  (** [youtube.videos().list(part="statistics,snippet", id=video_id).execute()] *)
  videos_list : str -> videos_response;
  (** [sentiment_pipeline(text)[0]["label"]] *)
  sentiment_pipeline : str -> str;
  (** [WordCloud(width=800, height=400, ...).generate(text)] saved as PNG;
      [generate] raises [ValueError] on a text in which it finds no word *)
  wordcloud_png : str -> result (list Byte.byte) }.

(** ** Get Video Statistics (app.py, lines 54-76) *)

Definition get_video_stats (sv : services) (video_id : str)
  : option stats * list call :=
  let trace := [VideosList video_id] in
  match videos_list sv video_id with
  | VideosHttpError => (None, trace)
  | VideosOk [] => (None, trace)
  | VideosOk (item :: _) =>
      (Some {| title := snippet_title item;
               views := default (JInt 0) (viewCount item);
               likes := default (JInt 0) (stat_likeCount item);
               comments_count := default (JInt 0) (commentCount item) |},
       trace)
  end.

(** ** Get Comments (app.py, lines 82-117) *)

Definition MAX_COMMENTS : nat := 20.

(** The [for item in response.get("items", [])] loop.  [inl] is the
    [return comments] inside the loop, [inr] is the loop running to its end. *)
Fixpoint collect_items (its : list raw_comment) (comments : list comment)
  : list comment + list comment :=
  match its with
  | [] => inr comments
  | item :: its' =>
      let comment_text := textDisplay item in
      let like_count := default 0 (likeCount item) in
      let comments := comments ++ [(comment_text, like_count)] in
      if (MAX_COMMENTS <=? length comments)%nat then inl comments
      else collect_items its' comments
  end.

(** The [while True] loop.  [answers] are the successive answers of the
    platform to the page requests of this run, one per request; the result is
    [None] when the loop asks for a page beyond them, which a platform that
    answers every request never causes.  An [HttpError] leaves through the
    handler, which returns the empty list. *)
Fixpoint get_comments_loop (video_id : str) (answers : list threads_response)
    (next_page_token : option str) (comments : list comment)
  : option (list comment * list call) :=
  match answers with
  | [] => None
  | response :: answers' =>
      let request := CommentThreadsList video_id 100 next_page_token in
      match response with
      | ThreadsHttpError => Some ([], [request])
      | ThreadsOk page =>
          match collect_items (default [] (items page)) comments with
          | inl comments => Some (comments, [request])
          | inr comments =>
              let next_page_token := nextPageToken page in
              if truthy (default [] next_page_token) then
                match get_comments_loop video_id answers' next_page_token comments with
                | Some (r, trace) => Some (r, request :: trace)
                | None => None
                end
              else Some (comments, [request])
          end
      end
  end.

Definition get_comments (video_id : str) (answers : list threads_response)
  : option (list comment * list call) :=
  get_comments_loop video_id answers None [].

(** ** Analyze Sentiment (app.py, lines 123-137) *)

Definition analyze_sentiment (sv : services) (comment : str)
  : sentiment * list call :=
  let comment := re_sub_tags comment in
  if negb (truthy (strip comment)) then (Neutral, [])
  else
    let text := take 256 comment in
    let label := upper (sentiment_pipeline sv text) in
    (if contains (lit "NEGATIVE") label then Negative
     else if contains (lit "NEUTRAL") label then Neutral
     else Positive,
     [SentimentPipeline text]).

(** ** Home route (app.py, lines 144-233) *)

Inductive http_method := GET | POST.

(** The local variables of [home] that the template receives. *)
Record locals := {
  positive : Z;
  negative : Z;
  neutral : Z;
  positive_comments : list str;
  negative_comments : list str;
  neutral_comments : list str;
  video_stats : option stats;
  top_liked_comments : list comment;
  error_message : str }.

Definition initial_locals : locals :=
  {| positive := 0; negative := 0; neutral := 0;
     positive_comments := []; negative_comments := []; neutral_comments := [];
     video_stats := None; top_liked_comments := []; error_message := [] |}.

Definition with_video_stats (st : locals) (vs : option stats) : locals :=
  {| positive := positive st; negative := negative st; neutral := neutral st;
     positive_comments := positive_comments st;
     negative_comments := negative_comments st;
     neutral_comments := neutral_comments st;
     video_stats := vs;
     top_liked_comments := top_liked_comments st;
     error_message := error_message st |}.

Definition with_top_liked_comments (st : locals) (top : list comment) : locals :=
  {| positive := positive st; negative := negative st; neutral := neutral st;
     positive_comments := positive_comments st;
     negative_comments := negative_comments st;
     neutral_comments := neutral_comments st;
     video_stats := video_stats st;
     top_liked_comments := top;
     error_message := error_message st |}.

Definition with_error_message (st : locals) (msg : str) : locals :=
  {| positive := positive st; negative := negative st; neutral := neutral st;
     positive_comments := positive_comments st;
     negative_comments := negative_comments st;
     neutral_comments := neutral_comments st;
     video_stats := video_stats st;
     top_liked_comments := top_liked_comments st;
     error_message := msg |}.

(** The two calls of [render_template]: with all the locals, and the early
    one that passes [error_message] only. *)
Inductive page :=
| RenderIndex (ctx : locals)
| RenderIndexError (error_message : str).

(** The [for comment, like_count in comments_data] loop (lines 176-188) on the
    locals it updates and [all_text]. *)
Fixpoint classify_loop (sv : services) (comments_data : list comment)
    (st : locals) (all_text : str) : locals * str * list call :=
  match comments_data with
  | [] => (st, all_text, [])
  | (comment, like_count) :: rest =>
      let '(sentiment, t) := analyze_sentiment sv comment in
      let all_text := all_text ++ lit " " ++ comment in
      let st :=
        match sentiment with
        | Positive =>
            {| positive := positive st + 1; negative := negative st;
               neutral := neutral st;
               positive_comments := positive_comments st ++ [comment];
               negative_comments := negative_comments st;
               neutral_comments := neutral_comments st;
               video_stats := video_stats st;
               top_liked_comments := top_liked_comments st;
               error_message := error_message st |}
        | Negative =>
            {| positive := positive st; negative := negative st + 1;
               neutral := neutral st;
               positive_comments := positive_comments st;
               negative_comments := negative_comments st ++ [comment];
               neutral_comments := neutral_comments st;
               video_stats := video_stats st;
               top_liked_comments := top_liked_comments st;
               error_message := error_message st |}
        | Neutral =>
            {| positive := positive st; negative := negative st;
               neutral := neutral st + 1;
               positive_comments := positive_comments st;
               negative_comments := negative_comments st;
               neutral_comments := neutral_comments st ++ [comment];
               video_stats := video_stats st;
               top_liked_comments := top_liked_comments st;
               error_message := error_message st |}
        end in
      let '(st, all_text, t') := classify_loop sv rest st all_text in
      (st, all_text, t ++ t')
  end.

(** [sorted(l, key=key, reverse=True)].  Python's sort is stable, also with
    [reverse=True]: an element goes behind the greater keys and in front of
    the equal and smaller ones that followed it in [l]. *)
Fixpoint insert_desc {A} (key : A -> Z) (x : A) (l : list A) : list A :=
  match l with
  | [] => [x]
  | y :: l' => if key x <? key y then y :: insert_desc key x l' else x :: l
  end.

Fixpoint sorted_reverse {A} (key : A -> Z) (l : list A) : list A :=
  match l with
  | [] => []
  | x :: l' => insert_desc key x (sorted_reverse key l')
  end.

(** Lines 190-194. *)
Definition top_liked (comments_data : list comment) : list comment :=
  take 5 (sorted_reverse snd comments_data).

(** The dictionary literal of lines 213-219. *)
Definition report_dict (vs : stats) (st : locals) (image : list Byte.byte)
  : gmap string pyval :=
  <["video_stats" := PStats vs]>
    (<["positive" := PInt (positive st)]>
      (<["negative" := PInt (negative st)]>
        (<["neutral" := PInt (neutral st)]>
          (<["wordcloud_image" := PBytes image]> ∅)))).

(** [home]: the request method and the form field [link]
    ([request.form.get("link")], [None] when the field is missing), the
    answers the platform gives to this run's comment requests, and the value of
    [report_data] on entry.  The result holds what the route returns or
    raises, the value of [report_data] on exit and the trace of external
    calls. *)
Definition home (sv : services) (method : http_method) (link : option str)
    (answers : list threads_response) (report_data : gmap string pyval)
  : option (result page * gmap string pyval * list call) :=
  match method with
  | GET => Some (Return (RenderIndex initial_locals), report_data, [])
  | POST =>
      match extract_video_id link with
      | Raise e => Some (Raise e, report_data, [])
      | Return video_id =>
          if negb (truthy (default [] video_id)) then
            let st := with_error_message initial_locals (lit "Invalid YouTube Link!") in
            Some (Return (RenderIndex st), report_data, [])
          else
            let video_id := default [] video_id in
            let '(video_stats, t1) := get_video_stats sv video_id in
            match video_stats with
            | None =>
                Some (Return (RenderIndexError (lit "Unable to fetch video details.")),
                      report_data, t1)
            | Some vs =>
                match get_comments video_id answers with
                | None => None
                | Some (comments_data, t2) =>
                    let st := with_video_stats initial_locals (Some vs) in
                    match comments_data with
                    | [] => Some (Return (RenderIndex st), report_data, t1 ++ t2)
                    | _ :: _ =>
                        let '(st, all_text, t3) := classify_loop sv comments_data st [] in
                        let st := with_top_liked_comments st (top_liked comments_data) in
                        let all_text :=
                          if negb (truthy (strip all_text))
                          then lit "No comments available" else all_text in
                        let trace := t1 ++ t2 ++ t3 ++ [WordCloudGenerate all_text] in
                        match wordcloud_png sv all_text with
                        | Raise e => Some (Raise e, report_data, trace)
                        | Return image =>
                            Some (Return (RenderIndex st),
                                  report_dict vs st image,
                                  trace)
                        end
                    end
                end
            end
      end
  end.

(** ** Download report (app.py, lines 240-288) *)

(** [html.escape(s)] with its default [quote=True]. *)
Definition escape_char (c : ascii) : str :=
  if Ascii.eqb c "&" then lit "&amp;"
  else if Ascii.eqb c "<" then lit "&lt;"
  else if Ascii.eqb c ">" then lit "&gt;"
  else if Ascii.eqb c "034" then lit "&quot;"
  else if Ascii.eqb c "'" then lit "&#x27;"
  else [c].

Definition html_escape (s : str) : str := concat (map escape_char s).

(** A piece of an f-string: literal text, or a value left to [format]. *)
Inductive fragment :=
| Text (s : str)
| Json (v : jsonval)
| Value (v : pyval).

(** The flowables handed to [SimpleDocTemplate.build]; the image size is in
    inches. *)
Inductive element :=
| Paragraph (text : list fragment) (style : string)
| Spacer (width height : Z)
| RLImage (data : list Byte.byte) (width_in height_in : Z).

Inductive download :=
| PlainText (body : str)
| SendFile (pdf : list Byte.byte) (download_name mimetype : string).

(** [d[key]] on [report_data]. *)
Definition getitem (d : gmap string pyval) (key : string) : result pyval :=
  match d !! key with
  | Some v => Return v
  | None => Raise KeyError
  end.

(** [download_report]: [doc_build] is the document compiler
    ([SimpleDocTemplate(buffer).build(elements)] and the bytes of the buffer).
    Subscripting a value of [report_data] that is not a dictionary, or
    wrapping one that is not a byte string in [BytesIO], raises [TypeError]. *)
Definition download_report (doc_build : list element -> list Byte.byte)
    (report_data : gmap string pyval) : result download :=
  if (size report_data =? 0)%nat then Return (PlainText (lit "No report available."))
  else
    let elements :=
      [Paragraph [Text (lit "<b>YouTube Sentiment Analysis Report</b>")] "Title";
       Spacer 1 12] in
    v ← getitem report_data "video_stats";
    vs ← match v with PStats vs => Return vs | _ => Raise TypeError end;
    let safe_title := html_escape (title vs) in
    let elements := elements ++
      [Paragraph [Text (lit "<b>Video Title:</b> "); Text safe_title] "Normal";
       Paragraph [Text (lit "Views: "); Json (views vs)] "Normal";
       Paragraph [Text (lit "Likes: "); Json (likes vs)] "Normal";
       Paragraph [Text (lit "Total Comments: "); Json (comments_count vs)] "Normal";
       Spacer 1 12;
       Paragraph [Text (lit "<b>Sentiment Summary:</b>")] "Heading2"] in
    p ← getitem report_data "positive";
    let elements := elements ++ [Paragraph [Text (lit "Positive: "); Value p] "Normal"] in
    n ← getitem report_data "negative";
    let elements := elements ++ [Paragraph [Text (lit "Negative: "); Value n] "Normal"] in
    u ← getitem report_data "neutral";
    let elements := elements ++
      [Paragraph [Text (lit "Neutral: "); Value u] "Normal"; Spacer 1 20] in
    elements ←
      match report_data !! "wordcloud_image" with
      | None => Return elements
      | Some (PBytes data) =>
          Return (elements ++
            [Paragraph [Text (lit "<b>Word Cloud:</b>")] "Heading2";
             Spacer 1 10;
             RLImage data 5 3])
      | Some _ => Raise TypeError
      end;
    Return (SendFile (doc_build elements)
              "YouTube_Analysis_Report.pdf" "application/pdf").

(** The piece of [s] in front of the leftmost [sep]; all of [s] without one. *)
Definition head_piece (sep s : str) : str :=
  match find_split sep s with
  | Some (a, _) => a
  | None => s
  end.

(** ** Reading of the specification: identifier extraction *)

(** The first of the three URL shapes whose marker occurs in [link], as the
    pair of the marker and the shape's delimiter. *)
Definition recognised_shape (link : str) : option (str * str) :=
  if contains (lit "v=") link then Some (lit "v=", lit "&")
  else if contains (lit "youtu.be/") link then Some (lit "youtu.be/", lit "?")
  else if contains (lit "shorts/") link then Some (lit "shorts/", lit "?")
  else None.

(** [id] is the substring of [link] that follows the leftmost occurrence of
    [marker] and runs up to the next occurrence of one of [stops], or to the
    end of [link] when none follows. *)
Definition identifier_up_to (stops : list str) (marker link id : str) : Prop :=
  ∃ pre rest,
    link = pre ++ marker ++ id ++ rest ∧
    (∀ pre' post', link = pre' ++ marker ++ post' → (length pre ≤ length pre')%nat) ∧
    (∀ stop, stop ∈ stops → contains stop id = false) ∧
    (rest = [] ∨ ∃ stop, stop ∈ stops ∧ starts_with stop rest = true).

(** ** Reading of the specification: comment pages *)

(** The comment an item stands for: its display text and its like count,
    0 when the item has none. *)
Definition item_comment (item : raw_comment) : comment :=
  (textDisplay item, default 0 (likeCount item)).

(** The comments one page holds, in the order of its items. *)
Definition page_comments (p : threads_page) : list comment :=
  map item_comment (default [] (items p)).

(** The comments of a sequence of pages, in page order. *)
Definition all_comments (pages : list threads_page) : list comment :=
  concat (map page_comments pages).

(** The page carries a next-page token (one that is not the empty string). *)
Definition has_next (p : threads_page) : bool :=
  truthy (default [] (nextPageToken p)).

(** Every page but the last carries a next-page token: the pages are the
    ones a run reaches by following the tokens. *)
Fixpoint linked (pages : list threads_page) : bool :=
  match pages with
  | [] => true
  | p :: rest =>
      match rest with
      | [] => true
      | _ :: _ => has_next p && linked rest
      end
  end.

(** The tokens run out: there is a last page, and it carries no token. *)
Definition tokens_run_out (pages : list threads_page) : bool :=
  match last pages with
  | Some p => negb (has_next p)
  | None => false
  end.

(** ** Reading of the specification: sanitising and label normalisation *)

Definition newline : ascii := "010"%char.

(** [out] is [s] without its tags.  A tag is a [<], a body and the next [>],
    the body holding neither a [>] (the pattern is not greedy) nor a newline
    (the dot of the pattern does not match one).  Tags are found from the
    left; a character at which no tag starts is kept. *)
Inductive tags_removed : str → str → Prop :=
| tags_removed_nil : tags_removed [] []
| tags_removed_tag body rest out :
    ">"%char ∉ body → newline ∉ body →
    tags_removed rest out →
    tags_removed ("<"%char :: body ++ ">"%char :: rest) out
| tags_removed_char c s out :
    (∀ body rest, c :: s = "<"%char :: body ++ ">"%char :: rest → newline ∈ body) →
    tags_removed s out →
    tags_removed (c :: s) (c :: out).

(** [label] contains [word] when letter case is ignored. *)
Definition contains_ignoring_case (word label : str) : bool :=
  contains word (upper label).

(** ** Reading of the specification: aggregation *)

(** The label the classifier gives a collected comment. *)
Definition label_of (sv : services) (c : comment) : sentiment :=
  (analyze_sentiment sv c.1).1.

(** The texts of the comments labelled [lab], in the order of the sequence. *)
Definition bucket (sv : services) (lab : sentiment) (comments_data : list comment)
  : list str :=
  (filter (λ c, label_of sv c = lab) comments_data).*1.

(** The comments whose like count is [k], in the order of the sequence. *)
Definition with_likes (k : Z) (l : list comment) : list comment :=
  filter (λ c, c.2 = k) l.

(** Like counts never increase along the sequence. *)
Definition descending (l : list comment) : Prop :=
  StronglySorted (λ a b, b.2 ≤ a.2) l.

(** ** Reading of the specification: halting and the report store *)

(** The link is rejected: extraction raises, finds no identifier, or finds an
    empty one. *)
Definition invalid_link (link : option str) : Prop :=
  ∀ video_id, extract_video_id link = Return (Some video_id) → video_id = [].

(** The metadata lookup for the identifier of the link faults or finds no
    video. *)
Definition metadata_unavailable (sv : services) (link : option str) : Prop :=
  ∃ video_id,
    extract_video_id link = Return (Some video_id) ∧ video_id ≠ [] ∧
    (videos_list sv video_id = VideosHttpError ∨
     videos_list sv video_id = VideosOk []).

(** The document of an analysis: what the compiler is handed when the stored
    analysis has the statistics [vs], the counts of [ctx] and the image
    [image], and nothing else. *)
Definition report_elements (vs : stats) (ctx : locals) (image : list Byte.byte)
  : list element :=
  [Paragraph [Text (lit "<b>YouTube Sentiment Analysis Report</b>")] "Title";
   Spacer 1 12;
   Paragraph [Text (lit "<b>Video Title:</b> "); Text (html_escape (title vs))] "Normal";
   Paragraph [Text (lit "Views: "); Json (views vs)] "Normal";
   Paragraph [Text (lit "Likes: "); Json (likes vs)] "Normal";
   Paragraph [Text (lit "Total Comments: "); Json (comments_count vs)] "Normal";
   Spacer 1 12;
   Paragraph [Text (lit "<b>Sentiment Summary:</b>")] "Heading2";
   Paragraph [Text (lit "Positive: "); Value (PInt (positive ctx))] "Normal";
   Paragraph [Text (lit "Negative: "); Value (PInt (negative ctx))] "Normal";
   Paragraph [Text (lit "Neutral: "); Value (PInt (neutral ctx))] "Normal";
   Spacer 1 20;
   Paragraph [Text (lit "<b>Word Cloud:</b>")] "Heading2";
   Spacer 1 10;
   RLImage image 5 3].

(** The text handed to the word-cloud renderer for the comments collected. *)
Definition cloud_text (comments_data : list comment) : str :=
  let all_text := concat (map (λ c, lit " " ++ c.1) comments_data) in
  if forallb isspace all_text then lit "No comments available" else all_text.

(** ** Sample inputs *)

(** The [i]-th sample comment, with [n] likes. *)
Definition demo_item (i : nat) (n : Z) : raw_comment :=
  {| textDisplay := lit "nice <b>video</b> " ++ [ascii_of_nat (65 + i)];
     likeCount := Some n |}.

(** A page of comments with the like counts [likes]. *)
Definition liked_page (likes : list Z) (token : option str) : threads_page :=
  {| items := Some (imap demo_item likes); nextPageToken := token |}.

(** A page of [count] comments with the like counts [first], [first + 1], ... *)
Definition demo_page (first : Z) (count : nat) (token : option str) : threads_page :=
  liked_page (map (λ i, first + Z.of_nat i) (seq 0 count)) token.

Definition demo_pages : list threads_page :=
  [demo_page 0 12 (Some (lit "p2")); demo_page 12 12 (Some (lit "p3"))].

Definition demo_later : list threads_response :=
  [ThreadsOk (demo_page 24 12 None)].

Definition demo_short_pages : list threads_page :=
  [demo_page 0 3 (Some (lit "p2"))].

Definition demo_answers : list threads_response :=
  [ThreadsOk (liked_page [5; 5; 3; 10; 1; 7] None)].

(** A letter or a digit. *)
Definition is_word_char (c : ascii) : bool :=
  let n := nat_of_ascii c in
  ((48 <=? n) && (n <=? 57) || (65 <=? n) && (n <=? 90) || (97 <=? n) && (n <=? 122))%nat.

(** A page with the single comment [!!!]. *)
Definition demo_wordless_answers : list threads_response :=
  [ThreadsOk {| items := Some [{| textDisplay := lit "!!!"; likeCount := None |}];
                nextPageToken := None |}].

Definition demo_video : video_item :=
  {| snippet_title := lit "Tom & Jerry";
     viewCount := Some (JStr (lit "1500"));
     stat_likeCount := Some (JStr (lit "75"));
     commentCount := None |}.

(** A platform that knows the video [ABC123] only, an engine that answers
    [negative] on texts holding [bad] and [positive] otherwise, and a renderer
    that returns a one-byte image for a text with a letter or a digit in it and
    raises [ValueError] for any other. *)
Definition demo_services : services :=
  {| videos_list := λ video_id,
       if bool_decide (video_id = lit "ABC123") then VideosOk [demo_video]
       else VideosOk [];
     sentiment_pipeline := λ text,
       if contains (lit "bad") text then lit "negative" else lit "positive";
     wordcloud_png := λ text,
       if existsb is_word_char text then Return [Byte.x89] else Raise ValueError |}.

Definition demo_link : option str :=
  Some (lit "https://www.youtube.com/watch?v=ABC123&t=5s").

Definition demo_doc_build (elements : list element) : list Byte.byte :=
  repeat Byte.x25 (length elements).

(** ** Further readings used by the properties *)

(** No tag starts anywhere in [s]: no [<] is followed by a [>] on its line. *)
Fixpoint tag_free (s : str) : bool :=
  match s with
  | [] => true
  | c :: s' =>
      negb (Ascii.eqb c "<" && bool_decide (is_Some (lazy_until_gt s'))) && tag_free s'
  end.

(** The call is one to the inference engine. *)
Definition is_inference (c : call) : bool :=
  match c with
  | SentimentPipeline _ => true
  | _ => false
  end.

(** The call is one to the word-cloud renderer. *)
Definition is_render (c : call) : bool :=
  match c with
  | WordCloudGenerate _ => true
  | _ => false
  end.

(** The page tokens a run sends when it asks for every page of [pages] and
    one more: none at first, then the token of the page before. *)
Definition page_tokens (pages : list threads_page) : list (option str) :=
  None :: map nextPageToken pages.

(** The values [report_data] can take: the empty dictionary the module starts
    with, and what a run of [home] leaves from such a value. *)
Inductive reachable : gmap string pyval → Prop :=
| reachable_start : reachable ∅
| reachable_home sv method link answers s out s' trace :
    reachable s →
    home sv method link answers s = Some (out, s', trace) →
    reachable s'.

(** [s] is the dictionary of a complete analysis of between 1 and 20
    comments. *)
Definition complete_report (s : gmap string pyval) : Prop :=
  ∃ vs st image,
    s = report_dict vs st image ∧
    0 ≤ positive st ∧ 0 ≤ negative st ∧ 0 ≤ neutral st ∧
    1 ≤ positive st + negative st + neutral st ≤ 20.

(** * Properties *)

(** ** Searching and splitting strings *)

Lemma starts_with_spec p s : starts_with p s = true ↔ ∃ t, s = p ++ t.
Proof.
  revert s. induction p as [|a p IH]; intros s; simpl.
  - split; eauto.
  - destruct s as [|b s].
    + split; [done | intros [t Ht]; discriminate].
    + rewrite andb_true_iff, IH. split.
      * intros [Hab [t ->]]. apply Ascii.eqb_eq in Hab as ->. eauto.
      * intros [t Ht]. injection Ht as -> ->. split; [apply Ascii.eqb_refl | eauto].
Qed.

Lemma starts_with_app p t : starts_with p (p ++ t) = true.
Proof. apply starts_with_spec. eauto. Qed.

Lemma contains_spec sub s : contains sub s = true ↔ ∃ a b, s = a ++ sub ++ b.
Proof.
  induction s as [|c s IH]; simpl.
  - rewrite starts_with_spec. split.
    + intros [t Ht]. exists [], t. done.
    + intros (a & b & H). destruct a; [eauto | discriminate].
  - rewrite orb_true_iff, starts_with_spec, IH. split.
    + intros [[t Ht] | (a & b & ->)].
      * exists [], t. done.
      * exists (c :: a), b. done.
    + intros (a & b & H). destruct a as [|c' a]; simpl in H.
      * left. eauto.
      * right. injection H as -> ->. eauto.
Qed.

Lemma find_split_Some sep s a b :
  find_split sep s = Some (a, b) →
  s = a ++ sep ++ b ∧ ∀ a' b', s = a' ++ sep ++ b' → (length a ≤ length a')%nat.
Proof.
  revert a b. induction s as [|c s IH]; intros a b; simpl.
  - destruct (starts_with sep []) eqn:E; [|done].
    intros [= <- <-]. apply starts_with_spec in E as [t Ht].
    destruct sep; [|discriminate]. split; [done | simpl; lia].
  - destruct (starts_with sep (c :: s)) eqn:E.
    + intros [= <- <-]. apply starts_with_spec in E as [t Ht]. rewrite Ht.
      rewrite drop_app_length. split; [done | simpl; lia].
    + destruct (find_split sep s) as [[a0 b0]|] eqn:F; [|done].
      intros [= <- <-]. destruct (IH _ _ eq_refl) as [-> Hmin]. split; [done|].
      intros a' b' H. destruct a' as [|c' a']; simpl in *.
      * rewrite H, starts_with_app in E. done.
      * injection H as -> H. apply Hmin in H. lia.
Qed.

Lemma find_split_None sep s : find_split sep s = None ↔ contains sep s = false.
Proof.
  induction s as [|c s IH]; simpl.
  - destruct (starts_with sep []); split; done.
  - destruct (starts_with sep (c :: s)); simpl; [split; done|].
    rewrite <- IH. destruct (find_split sep s) as [[??]|]; split; done.
Qed.

Lemma find_split_nil sep : sep ≠ [] → find_split sep [] = None.
Proof. destruct sep; done. Qed.

Lemma find_split_shorter sep s a b :
  sep ≠ [] → find_split sep s = Some (a, b) → (length b < length s)%nat.
Proof.
  intros Hsep H. apply find_split_Some in H as [-> _].
  rewrite !length_app. destruct sep; [done | simpl; lia].
Qed.

Lemma split_fuel_irrelevant sep n m s :
  sep ≠ [] → (length s ≤ n)%nat → (length s ≤ m)%nat →
  split_fuel n sep s = split_fuel m sep s.
Proof.
  intros Hsep. revert m s. induction n as [|n IH]; intros m s Hn Hm.
  - destruct s; [|simpl in Hn; lia].
    destruct m; cbn [split_fuel]; [done|]. by rewrite find_split_nil.
  - destruct m as [|m]; cbn [split_fuel].
    + destruct s; [|simpl in Hm; lia]. by rewrite find_split_nil.
    + destruct (find_split sep s) as [[a b]|] eqn:F; [|done].
      apply find_split_shorter in F; [|done]. f_equal. apply IH; lia.
Qed.

(** The fuel of [split] is never used up. *)
Lemma split_fuel_enough sep n s :
  sep ≠ [] → (length s ≤ n)%nat → split_fuel n sep s = split sep s.
Proof. intros. unfold split. by apply split_fuel_irrelevant. Qed.

Lemma split_head sep s : sep ≠ [] → split sep s !! 0%nat = Some (head_piece sep s).
Proof.
  intros Hsep. unfold split, head_piece. destruct s as [|c s]; cbn [length split_fuel].
  - by rewrite find_split_nil.
  - destruct (find_split sep (c :: s)) as [[a b]|]; done.
Qed.

Lemma split_second sep s a b :
  sep ≠ [] → find_split sep s = Some (a, b) →
  split sep s !! 1%nat = Some (head_piece sep b).
Proof.
  intros Hsep F. pose proof (find_split_shorter _ _ _ _ Hsep F) as Hlt.
  unfold split. destruct (length s) as [|n] eqn:E; [lia|].
  cbn [split_fuel]. rewrite F. cbn [lookup list_lookup].
  rewrite (split_fuel_enough sep n b) by (done || lia). by apply split_head.
Qed.

Lemma contains_app_false_l m x y : contains m (x ++ y) = false → contains m x = false.
Proof.
  intros H. destruct (contains m x) eqn:E; [|done].
  apply contains_spec in E as (a & b & ->).
  rewrite <- H. symmetry. apply contains_spec. exists a, (b ++ y).
  by rewrite <- !app_assoc.
Qed.

Lemma starts_with_app_l p x y : starts_with p x = true → starts_with p (x ++ y) = true.
Proof.
  rewrite !starts_with_spec. intros [t ->]. exists (t ++ y). by rewrite app_assoc.
Qed.

Lemma head_piece_spec sep s :
  sep ≠ [] →
  ∃ rest, s = head_piece sep s ++ rest ∧ contains sep (head_piece sep s) = false ∧
          (rest = [] ∨ starts_with sep rest = true).
Proof.
  intros Hsep. unfold head_piece.
  destruct (find_split sep s) as [[a b]|] eqn:F.
  - apply find_split_Some in F as [-> Hmin]. exists (sep ++ b). split; [done|].
    split; [|right; apply starts_with_app].
    destruct (contains sep a) eqn:E; [|done].
    apply contains_spec in E as (p & q & ->).
    specialize (Hmin p (q ++ sep ++ b)). rewrite <- !app_assoc in Hmin.
    specialize (Hmin eq_refl). rewrite !length_app in Hmin.
    destruct sep; [done | simpl in Hmin; lia].
  - exists []. rewrite app_nil_r. apply find_split_None in F. auto.
Qed.

Lemma extract_shape marker delim link :
  marker ≠ [] → delim ≠ [] → contains marker link = true →
  ∃ id,
    (part ← subscript (split marker link) 1;
     id ← subscript (split delim part) 0;
     Return (Some id)) = Return (Some id) ∧
    identifier_up_to [delim; marker] marker link id.
Proof.
  intros Hm Hd Hc.
  destruct (find_split marker link) as [[pre A]|] eqn:F; cycle 1.
  { apply find_split_None in F. congruence. }
  exists (head_piece delim (head_piece marker A)). split.
  - unfold subscript. rewrite (split_second _ _ _ _ Hm F). simpl.
    rewrite (split_head _ _ Hd). done.
  - apply find_split_Some in F as [Hlink Hmin].
    destruct (head_piece_spec marker A Hm) as (restB & HA & HcB & HrB).
    destruct (head_piece_spec delim (head_piece marker A) Hd) as (restI & HB & HcI & HrI).
    set (B := head_piece marker A) in *. set (id := head_piece delim B) in *.
    exists pre, (restI ++ restB). split; [|split; [done|split]].
    + rewrite Hlink at 1. rewrite HA at 1. rewrite HB at 1. by rewrite <- !app_assoc.
    + intros stop Hstop. apply elem_of_cons in Hstop as [-> | Hstop]; [done|].
      apply list_elem_of_singleton in Hstop as ->.
      apply (contains_app_false_l _ _ restI). by rewrite <- HB.
    + destruct HrI as [-> | HrI].
      * simpl. destruct HrB as [HrB | HrB]; [by left|].
        right. exists marker. split; [apply list_elem_of_further, list_elem_of_here | done].
      * right. exists delim. split; [apply list_elem_of_here | by apply starts_with_app_l].
Qed.

(** C7 (as amended).  The three URL shapes are tried in order: query
    parameter [v=], short link [youtu.be/], [shorts/].  For the first shape
    whose marker occurs in the link, extraction returns the substring that
    follows the leftmost occurrence of the marker and runs up to the next
    delimiter ([&] for the query form, [?] for the other two) or the next
    occurrence of the marker, whichever comes first, or to the end of the
    link.  For a link holding none of the markers it returns [None]. *)
Theorem extract_video_id_shapes (link : str) :
  match recognised_shape link with
  | Some (marker, delim) =>
      ∃ id, extract_video_id (Some link) = Return (Some id) ∧
            identifier_up_to [delim; marker] marker link id
  | None => extract_video_id (Some link) = Return None
  end.
Proof.
  unfold recognised_shape, extract_video_id.
  destruct (contains (lit "v=") link) eqn:E1.
  { by apply extract_shape. }
  destruct (contains (lit "youtu.be/") link) eqn:E2.
  { by apply extract_shape. }
  destruct (contains (lit "shorts/") link) eqn:E3.
  { by apply extract_shape. }
  done.
Qed.

(** The decomposition behind [identifier_up_to] is the one [find_split] finds. *)
Lemma identifier_up_to_unfold stops marker link id pre A :
  identifier_up_to stops marker link id →
  find_split marker link = Some (pre, A) →
  ∃ rest, A = id ++ rest ∧
          (rest = [] ∨ ∃ stop, stop ∈ stops ∧ starts_with stop rest = true).
Proof.
  intros (pre0 & rest & Hlink & Hmin0 & _ & Hrest) F.
  apply find_split_Some in F as [HA Hmin].
  assert (Hlen : length pre0 = length pre).
  { apply Nat.le_antisymm; [by eapply Hmin0 | by eapply Hmin]. }
  rewrite HA in Hlink. apply app_inj_1 in Hlink as [_ Hlink]; [|done].
  apply app_inv_head in Hlink. eauto.
Qed.

(** The identifier of a link whose marker occurs again before the delimiter
    stops at that second occurrence, not at the delimiter. *)
Lemma extract_video_id_stops_at_marker :
  recognised_shape (lit "https://www.youtube.com/watch?v=abcv=def&t=5s")
    = Some (lit "v=", lit "&") ∧
  ¬ ∃ id,
      extract_video_id (Some (lit "https://www.youtube.com/watch?v=abcv=def&t=5s"))
        = Return (Some id) ∧
      identifier_up_to [lit "&"] (lit "v=")
        (lit "https://www.youtube.com/watch?v=abcv=def&t=5s") id.
Proof.
  split; [reflexivity|]. intros (id & Hid & Hup).
  vm_compute in Hid. injection Hid as <-.
  eapply identifier_up_to_unfold in Hup as (rest & HA & Hrest); [|vm_compute; reflexivity].
  injection HA as <-.
  destruct Hrest as [? | (stop & Hstop & Hs)]; [done|].
  apply list_elem_of_singleton in Hstop as ->. vm_compute in Hs. done.
Qed.

(** ** Comment collection *)

Lemma collect_items_spec its comments :
  (length comments < MAX_COMMENTS)%nat →
  match collect_items its comments with
  | inl r =>
      r = take MAX_COMMENTS (comments ++ map item_comment its) ∧
      (MAX_COMMENTS ≤ length (comments ++ map item_comment its))%nat
  | inr r =>
      r = comments ++ map item_comment its ∧ (length r < MAX_COMMENTS)%nat
  end.
Proof.
  revert comments. induction its as [|item its IH]; intros comments Hlen; cbn [collect_items map].
  - by rewrite app_nil_r.
  - fold (item_comment item).
    destruct (MAX_COMMENTS <=? length (comments ++ [item_comment item]))%nat eqn:E;
      [apply Nat.leb_le in E; rename E into Hge | apply Nat.leb_gt in E; rename E into Hlt].
    + assert (Hl : length (comments ++ [item_comment item]) = MAX_COMMENTS).
      { rewrite length_app in *. simpl in *. lia. }
      replace (comments ++ item_comment item :: map item_comment its)
        with ((comments ++ [item_comment item]) ++ map item_comment its)
        by (by rewrite <- app_assoc).
      split; [by rewrite take_app_length' | rewrite length_app; lia].
    + specialize (IH _ Hlt). rewrite <- app_assoc in IH. exact IH.
Qed.

Lemma linked_cons p q rest :
  linked (p :: q :: rest) = true → has_next p = true ∧ linked (q :: rest) = true.
Proof. cbn [linked]. by intros ?%andb_true_iff. Qed.

Lemma all_comments_cons p pages :
  all_comments (p :: pages) = page_comments p ++ all_comments pages.
Proof. done. Qed.

Lemma get_comments_loop_spec video_id pages later tok comments :
  (length comments < MAX_COMMENTS)%nat →
  linked pages = true →
  tokens_run_out pages = true ∨
    (MAX_COMMENTS ≤ length (comments ++ all_comments pages))%nat →
  ∃ trace,
    get_comments_loop video_id (map ThreadsOk pages ++ later) tok comments
      = Some (take MAX_COMMENTS (comments ++ all_comments pages), trace) ∧
    (length trace ≤ length pages)%nat.
Proof.
  revert tok comments. induction pages as [|p pages IH]; intros tok comments Hlen Hlink Hend.
  - destruct Hend as [? | Hge]; [done|].
    unfold all_comments in Hge. simpl in Hge. rewrite app_nil_r in Hge. lia.
  - cbn [map app get_comments_loop]. rewrite all_comments_cons.
    pose proof (collect_items_spec (default [] (items p)) comments Hlen) as Hc.
    fold (page_comments p) in Hc.
    destruct (collect_items (default [] (items p)) comments) as [r | r].
    + destruct Hc as [-> Hge]. exists [CommentThreadsList video_id 100 tok].
      split; [|simpl; lia].
      rewrite app_assoc. by rewrite (take_app_le _ (all_comments pages)) by done.
    + destruct Hc as [-> Hlt]. fold (has_next p).
      destruct pages as [|q pages].
      * unfold all_comments in *. simpl in *. rewrite !app_nil_r in *.
        destruct Hend as [Hend | Hge]; [|lia].
        unfold tokens_run_out in Hend. simpl in Hend.
        apply negb_true_iff in Hend. rewrite Hend.
        exists [CommentThreadsList video_id 100 tok].
        split; [|simpl; lia]. by rewrite take_ge by lia.
      * apply linked_cons in Hlink as [Hp Hlink]. rewrite Hp.
        destruct (IH (nextPageToken p) (comments ++ page_comments p)) as (trace & -> & Htr).
        -- done.
        -- done.
        -- destruct Hend as [Hend | Hge]; [by left | right].
           by rewrite <- app_assoc.
        -- exists (CommentThreadsList video_id 100 tok :: trace).
           split; [by rewrite <- app_assoc |]. simpl. simpl in Htr. lia.
Qed.

Lemma get_comments_loop_bound video_id answers tok comments r trace :
  (length comments < MAX_COMMENTS)%nat →
  get_comments_loop video_id answers tok comments = Some (r, trace) →
  (length r ≤ MAX_COMMENTS)%nat.
Proof.
  revert tok comments trace.
  induction answers as [|[|p] answers IH]; intros tok comments trace Hlen; cbn [get_comments_loop].
  - done.
  - intros [= <- <-]. simpl. lia.
  - pose proof (collect_items_spec (default [] (items p)) comments Hlen) as Hc.
    destruct (collect_items (default [] (items p)) comments) as [c | c].
    + destruct Hc as [-> _]. intros [= <- <-]. rewrite length_take. lia.
    + destruct Hc as [_ Hlt].
      destruct (truthy (default [] (nextPageToken p))).
      * destruct (get_comments_loop video_id answers (nextPageToken p) c)
          as [[r' t']|] eqn:E; [|done].
        intros [= <- <-]. by eapply IH.
      * intros [= <- <-]. lia.
Qed.

(** Whatever the platform answers, a result of [get_comments] has at most 20
    comments. *)
Lemma get_comments_at_most_20 video_id answers r trace :
  get_comments video_id answers = Some (r, trace) → (length r ≤ 20)%nat.
Proof. apply get_comments_loop_bound. simpl. unfold MAX_COMMENTS. lia. Qed.

Lemma get_comments_loop_fault video_id pages later tok comments :
  forallb has_next pages = true →
  (length (comments ++ all_comments pages) < MAX_COMMENTS)%nat →
  ∃ trace,
    get_comments_loop video_id (map ThreadsOk pages ++ ThreadsHttpError :: later)
      tok comments = Some ([], trace) ∧
    length trace = S (length pages).
Proof.
  revert tok comments. induction pages as [|p pages IH]; intros tok comments Hnext Hlen.
  - by exists [CommentThreadsList video_id 100 tok].
  - cbn [forallb] in Hnext. apply andb_true_iff in Hnext as [Hp Hnext].
    rewrite all_comments_cons, app_assoc in Hlen.
    assert (Hc0 : (length comments < MAX_COMMENTS)%nat).
    { rewrite !length_app in Hlen. lia. }
    cbn [map app get_comments_loop].
    pose proof (collect_items_spec (default [] (items p)) comments Hc0) as Hc.
    fold (page_comments p) in Hc.
    destruct (collect_items (default [] (items p)) comments) as [r | r].
    + destruct Hc as [_ Hge]. rewrite length_app in Hlen. lia.
    + destruct Hc as [-> _]. fold (has_next p). rewrite Hp.
      destruct (IH (nextPageToken p) (comments ++ page_comments p) Hnext Hlen)
        as (trace & -> & Htr).
      exists (CommentThreadsList video_id 100 tok :: trace). split; [done | simpl; lia].
Qed.

(** C1.  For pages reached by following the tokens, ending with a page
    without token or holding 20 comments or more: [get_comments] returns (it
    does not ask beyond these pages, whatever the platform would answer
    later), the result has at most 20 comments, it is the first 20 comments of
    the pages in page order, all of them when there are fewer than 20, and no
    more pages are requested than the ones given.  Taking the pages up to the
    one that holds the 20th comment, this says that the run stops inside that
    page. *)
Theorem get_comments_cap video_id pages later :
  linked pages = true →
  tokens_run_out pages = true ∨ (20 ≤ length (all_comments pages))%nat →
  ∃ r trace,
    get_comments video_id (map ThreadsOk pages ++ later) = Some (r, trace) ∧
    (length r ≤ 20)%nat ∧
    r = take 20 (all_comments pages) ∧
    ((length (all_comments pages) < 20)%nat → r = all_comments pages) ∧
    (length trace ≤ length pages)%nat.
Proof.
  intros Hlink Hend.
  destruct (get_comments_loop_spec video_id pages later None [] ) as (trace & Hrun & Htr);
    [unfold MAX_COMMENTS; simpl; lia | done | done |].
  exists (take 20 (all_comments pages)), trace.
  split; [exact Hrun|]. split; [rewrite length_take; lia|].
  split; [done|]. split; [|done].
  intros Hlt. apply take_ge. lia.
Qed.

Lemma get_comments_cap_witness :
  linked demo_pages = true ∧
  (tokens_run_out demo_pages = true ∨ (20 ≤ length (all_comments demo_pages))%nat) ∧
  ∃ r trace,
    get_comments (lit "ABC123") (map ThreadsOk demo_pages ++ demo_later) = Some (r, trace) ∧
    (length r ≤ 20)%nat ∧
    r = take 20 (all_comments demo_pages) ∧
    ((length (all_comments demo_pages) < 20)%nat → r = all_comments demo_pages) ∧
    (length trace ≤ length demo_pages)%nat.
Proof.
  split; [reflexivity|]. split; [right; vm_compute; lia|].
  apply (get_comments_cap (lit "ABC123") demo_pages demo_later);
    [reflexivity | right; vm_compute; lia].
Defined.

(** C6 (as amended).  When the platform faults after any number of pages
    that did not fill the cap, [get_comments] swallows the fault and returns
    the empty list: the comments gathered from the earlier pages are dropped. *)
Theorem get_comments_fault_returns_empty video_id pages later :
  forallb has_next pages = true →
  (length (all_comments pages) < 20)%nat →
  ∃ trace,
    get_comments video_id (map ThreadsOk pages ++ ThreadsHttpError :: later)
      = Some ([], trace) ∧
    length trace = S (length pages).
Proof. intros Hnext Hlen. by apply get_comments_loop_fault. Qed.

Lemma get_comments_fault_returns_empty_witness :
  forallb has_next demo_short_pages = true ∧
  (length (all_comments demo_short_pages) < 20)%nat ∧
  ∃ trace,
    get_comments (lit "ABC123") (map ThreadsOk demo_short_pages ++ [ThreadsHttpError])
      = Some ([], trace) ∧
    length trace = S (length demo_short_pages).
Proof.
  split; [reflexivity|]. split; [vm_compute; lia|].
  apply (get_comments_fault_returns_empty (lit "ABC123") demo_short_pages []);
    [reflexivity | vm_compute; lia].
Defined.

(** A fault on the second page: the comments of the first page are gathered,
    and they are not what [get_comments] returns. *)
Lemma get_comments_fault_drops_gathered :
  all_comments demo_short_pages ≠ [] ∧
  ¬ ∃ trace,
      get_comments (lit "ABC123") (map ThreadsOk demo_short_pages ++ [ThreadsHttpError])
        = Some (all_comments demo_short_pages, trace).
Proof.
  split; [done|]. intros [trace H]. vm_compute in H. done.
Qed.

(** ** Sanitising and classifying *)

Lemma lazy_until_gt_Some s rest :
  lazy_until_gt s = Some rest →
  ∃ body, s = body ++ ">"%char :: rest ∧ (">"%char ∉ body) ∧ newline ∉ body.
Proof.
  induction s as [|c s IH]; cbn [lazy_until_gt]; [done|].
  destruct (Ascii.eqb_spec c ">") as [-> | Hgt].
  - intros [= ->]. exists []. split; [done|]. split; apply not_elem_of_nil.
  - destruct (Ascii.eqb_spec c "010") as [-> | Hnl]; [done|].
    intros (body & -> & H1 & H2)%IH. exists (c :: body). split; [done|].
    split; apply not_elem_of_cons; done.
Qed.

Lemma lazy_until_gt_None s body rest :
  lazy_until_gt s = None → s = body ++ ">"%char :: rest → newline ∈ body.
Proof.
  revert body. induction s as [|c s IH]; intros body; cbn [lazy_until_gt].
  - intros _ H. by destruct body.
  - destruct (Ascii.eqb_spec c ">") as [-> | Hgt]; [done|].
    destruct (Ascii.eqb_spec c "010") as [-> | Hnl].
    + intros _ H. destruct body as [|b body]; simplify_eq/=. apply list_elem_of_here.
    + intros Hs H. destruct body as [|b body]; simplify_eq/=.
      apply list_elem_of_further. by apply IH.
Qed.

Lemma sub_tags_inside body rest :
  ">"%char ∉ body →
  sub_tags_from true (body ++ ">"%char :: rest) = sub_tags_from false rest.
Proof.
  induction body as [|c body IH]; intros Hgt; cbn [app sub_tags_from].
  - done.
  - apply not_elem_of_cons in Hgt as [Hc Hgt].
    destruct (Ascii.eqb_spec c ">"); [done | by apply IH].
Qed.

(** [re_sub_tags] removes the tags, and nothing else. *)
Lemma re_sub_tags_spec s : tags_removed s (re_sub_tags s).
Proof.
  unfold re_sub_tags.
  induction s as [s IH] using (induction_ltof1 _ length). unfold ltof in IH.
  destruct s as [|c s]; [constructor|]. cbn [sub_tags_from].
  destruct (Ascii.eqb_spec c "<") as [-> | Hlt]; cbn [andb].
  - destruct (lazy_until_gt s) as [rest|] eqn:E.
    + rewrite bool_decide_eq_true_2 by eauto.
      apply lazy_until_gt_Some in E as (body & -> & Hgt & Hnl).
      rewrite sub_tags_inside by done.
      constructor; [done | done |]. apply IH. rewrite length_cons, length_app. simpl. lia.
    + rewrite bool_decide_eq_false_2 by (by intros [? ?]).
      constructor; [|apply IH; simpl; lia].
      intros body rest [= H]. by eapply lazy_until_gt_None.
  - constructor; [|apply IH; simpl; lia].
    intros body rest [= H]. done.
Qed.

Lemma lstrip_nil s : lstrip s = [] ↔ forallb isspace s = true.
Proof.
  induction s as [|c s IH]; cbn [lstrip forallb]; [done|].
  destruct (isspace c); [done | split; done].
Qed.

Lemma lstrip_head s c t : lstrip s = c :: t → isspace c = false.
Proof.
  induction s as [|d s IH]; cbn [lstrip]; [done|].
  destruct (isspace d) eqn:E; [done|]. by intros [= -> _].
Qed.

Lemma forallb_rev {A} (f : A → bool) l : forallb f (rev l) = forallb f l.
Proof.
  induction l as [|x l IH]; [done|]. simpl. rewrite forallb_app, IH. simpl.
  rewrite andb_true_r. apply andb_comm.
Qed.

(** [not s.strip()] holds exactly for the strings of whitespace, the empty
    one among them. *)
Lemma strip_falsy s : negb (truthy (strip s)) = forallb isspace s.
Proof.
  destruct (forallb isspace s) eqn:E.
  - apply lstrip_nil in E. unfold strip, rstrip. by rewrite E.
  - destruct (lstrip s) as [|c t] eqn:L.
    { apply lstrip_nil in L. congruence. }
    apply lstrip_head in L as Hc. unfold strip, rstrip. rewrite L.
    destruct (lstrip (rev (c :: t))) as [|d u] eqn:R.
    + apply lstrip_nil in R. rewrite forallb_rev in R. simpl in R. by rewrite Hc in R.
    + destruct (rev (d :: u)) eqn:V; [|done].
      apply (f_equal length) in V. rewrite length_rev in V. done.
Qed.

Lemma contains_ignoring_case_spec word label :
  contains_ignoring_case word label = true ↔
  ∃ a w b, label = a ++ w ++ b ∧ upper w = word.
Proof.
  unfold contains_ignoring_case, upper. rewrite contains_spec. split.
  - intros (a' & b' & H). apply fmap_app_inv in H as (a & r & -> & H & ->).
    symmetry in H. apply fmap_app_inv in H as (w & b & -> & -> & ->). eauto.
  - intros (a & w & b & -> & <-). exists (upper_char <$> a), (upper_char <$> b).
    by rewrite !fmap_app.
Qed.

(** C2.  [analyze_sentiment] first removes the tags.  When what is left is
    empty or whitespace it returns Neutral and the inference engine is not
    called.  Otherwise the engine is called once, on the first 256 characters
    of the text without tags, and its label is read by priority: Negative when
    it contains NEGATIVE in any letter case, else Neutral when it contains
    NEUTRAL, else Positive. *)
Theorem analyze_sentiment_steps sv comment :
  ∃ stripped,
    tags_removed comment stripped ∧
    analyze_sentiment sv comment =
      if forallb isspace stripped then (Neutral, [])
      else
        let text := take 256 stripped in
        let label := sentiment_pipeline sv text in
        (if contains_ignoring_case (lit "NEGATIVE") label then Negative
         else if contains_ignoring_case (lit "NEUTRAL") label then Neutral
         else Positive,
         [SentimentPipeline text]).
Proof.
  exists (re_sub_tags comment). split; [apply re_sub_tags_spec|].
  unfold analyze_sentiment. by rewrite strip_falsy.
Qed.

(** ** Aggregation and top-liked selection *)

Lemma bucket_cons sv lab c l :
  bucket sv lab (c :: l) =
  if decide (label_of sv c = lab) then c.1 :: bucket sv lab l else bucket sv lab l.
Proof. unfold bucket. rewrite filter_cons. by destruct (decide _). Qed.

(** What the loop does to the locals, from any state it is entered in. *)
Lemma classify_loop_spec sv comments_data st all_text st' all_text' trace :
  classify_loop sv comments_data st all_text = (st', all_text', trace) →
  positive st' = positive st + Z.of_nat (length (bucket sv Positive comments_data)) ∧
  negative st' = negative st + Z.of_nat (length (bucket sv Negative comments_data)) ∧
  neutral st' = neutral st + Z.of_nat (length (bucket sv Neutral comments_data)) ∧
  positive_comments st' = positive_comments st ++ bucket sv Positive comments_data ∧
  negative_comments st' = negative_comments st ++ bucket sv Negative comments_data ∧
  neutral_comments st' = neutral_comments st ++ bucket sv Neutral comments_data ∧
  video_stats st' = video_stats st ∧
  top_liked_comments st' = top_liked_comments st ∧
  error_message st' = error_message st.
Proof.
  revert st all_text st' all_text' trace.
  induction comments_data as [|[comment like_count] rest IH];
    intros st all_text st' all_text' trace.
  - intros [= <- _ _]. simpl. rewrite !Z.add_0_r, !app_nil_r. done.
  - cbn [classify_loop]. rewrite !bucket_cons. unfold label_of. cbn [fst].
    destruct (analyze_sentiment sv comment) as [lab t]. cbn [fst].
    match goal with |- context [classify_loop sv rest ?s ?a] =>
      specialize (IH s a); destruct (classify_loop sv rest s a) as [[st1 txt1] t1]
    end.
    intros [= <- _ _].
    destruct (IH _ _ _ eq_refl) as (H1 & H2 & H3 & H4 & H5 & H6 & H7 & H8 & H9).
    rewrite H1, H2, H3, H4, H5, H6, H7, H8, H9.
    destruct lab; simpl; rewrite <- ?app_assoc; simpl; repeat split; lia.
Qed.

Lemma buckets_partition sv l :
  bucket sv Positive l ++ bucket sv Negative l ++ bucket sv Neutral l ≡ₚ l.*1.
Proof.
  induction l as [|c l IH]; [done|].
  rewrite !bucket_cons, fmap_cons.
  destruct (label_of sv c); simpl.
  - by rewrite IH.
  - rewrite <- Permutation_middle. by rewrite IH.
  - rewrite app_assoc, <- Permutation_middle, <- app_assoc. by rewrite IH.
Qed.

(** C3.  After the aggregation loop the three counters add up to the number
    of comments, each counter is the length of its bucket, each bucket holds
    the texts of the comments with its label in the order they were met, and
    the three buckets together hold every comment once. *)
Theorem classify_loop_tally sv comments_data vs :
  let st := (classify_loop sv comments_data (with_video_stats initial_locals vs) []).1.1 in
  positive st + negative st + neutral st = Z.of_nat (length comments_data) ∧
  positive st = Z.of_nat (length (positive_comments st)) ∧
  negative st = Z.of_nat (length (negative_comments st)) ∧
  neutral st = Z.of_nat (length (neutral_comments st)) ∧
  positive_comments st = bucket sv Positive comments_data ∧
  negative_comments st = bucket sv Negative comments_data ∧
  neutral_comments st = bucket sv Neutral comments_data ∧
  positive_comments st ++ negative_comments st ++ neutral_comments st
    ≡ₚ comments_data.*1.
Proof.
  destruct (classify_loop sv comments_data (with_video_stats initial_locals vs) [])
    as [[st all_text] trace] eqn:E.
  apply classify_loop_spec in E as (H1 & H2 & H3 & H4 & H5 & H6 & _). simpl in *.
  pose proof (buckets_partition sv comments_data) as Hp.
  rewrite H4, H5, H6, H1, H2, H3.
  repeat split; try done.
  apply Permutation_length in Hp. rewrite !length_app, length_fmap in Hp. lia.
Qed.

Section Sorting.
Context {A : Type} (key : A → Z).

Lemma insert_desc_perm x l : insert_desc key x l ≡ₚ x :: l.
Proof.
  induction l as [|y l IH]; cbn [insert_desc]; [done|].
  destruct (key x <? key y); [|done]. rewrite IH. apply Permutation_swap.
Qed.

Lemma sorted_reverse_perm l : sorted_reverse key l ≡ₚ l.
Proof.
  induction l as [|x l IH]; cbn [sorted_reverse]; [done|].
  by rewrite insert_desc_perm, IH.
Qed.

Lemma insert_desc_sorted x l :
  StronglySorted (λ a b, key b ≤ key a) l →
  StronglySorted (λ a b, key b ≤ key a) (insert_desc key x l).
Proof.
  induction 1 as [|y l Hs IH Hy]; cbn [insert_desc].
  - repeat constructor.
  - destruct (Z.ltb_spec (key x) (key y)) as [Hlt | Hge].
    + constructor; [done|].
      rewrite insert_desc_perm. constructor; [lia | done].
    + constructor; [by constructor|].
      constructor; [done|]. eapply Forall_impl; [exact Hy|]. simpl. intros. lia.
Qed.

Lemma sorted_reverse_sorted l :
  StronglySorted (λ a b, key b ≤ key a) (sorted_reverse key l).
Proof.
  induction l as [|x l IH]; cbn [sorted_reverse]; [constructor|].
  by apply insert_desc_sorted.
Qed.

(** An element only moves behind elements of a greater key: the elements of
    one key keep their order. *)
Lemma insert_desc_stable k x l :
  filter (λ a, key a = k) (insert_desc key x l) = filter (λ a, key a = k) (x :: l).
Proof.
  induction l as [|y l IH]; cbn [insert_desc]; [done|].
  destruct (Z.ltb_spec (key x) (key y)) as [Hlt | Hge]; [|done].
  rewrite (filter_cons _ y), IH, !filter_cons.
  repeat case_decide; try done; lia.
Qed.

Lemma sorted_reverse_stable k l :
  filter (λ a, key a = k) (sorted_reverse key l) = filter (λ a, key a = k) l.
Proof.
  induction l as [|x l IH]; cbn [sorted_reverse]; [done|].
  by rewrite insert_desc_stable, !filter_cons, IH.
Qed.
End Sorting.

(** ** The home route, case by case *)

Lemma home_invalid_link sv link answers s :
  invalid_link link →
  ∃ out, home sv POST link answers s = Some (out, s, []) ∧
         (∀ ctx, out = Return (RenderIndex ctx) →
                 ctx = with_error_message initial_locals (lit "Invalid YouTube Link!")).
Proof.
  unfold invalid_link, home. intros Hinv.
  destruct (extract_video_id link) as [[[|c id]|]|e].
  - eexists. split; [done|]. by intros ctx [= <-].
  - by specialize (Hinv _ eq_refl).
  - eexists. split; [done|]. by intros ctx [= <-].
  - eexists. split; [done|]. by intros ctx [= ].
Qed.

Lemma get_video_stats_trace sv video_id :
  (get_video_stats sv video_id).2 = [VideosList video_id].
Proof.
  unfold get_video_stats. by destruct (videos_list sv video_id) as [|[|??]].
Qed.

Lemma home_no_stats sv link video_id answers s :
  extract_video_id link = Return (Some video_id) → video_id ≠ [] →
  (get_video_stats sv video_id).1 = None →
  home sv POST link answers s =
    Some (Return (RenderIndexError (lit "Unable to fetch video details.")), s,
          [VideosList video_id]).
Proof.
  intros Hid Hne Hst. unfold home. rewrite Hid.
  destruct video_id as [|c id]; [done|]. simpl.
  pose proof (get_video_stats_trace sv (c :: id)) as Ht.
  destruct (get_video_stats sv (c :: id)) as [o t]. simpl in *. by subst.
Qed.

Lemma home_no_comments sv link video_id vs answers t2 s :
  extract_video_id link = Return (Some video_id) → video_id ≠ [] →
  (get_video_stats sv video_id).1 = Some vs →
  get_comments video_id answers = Some ([], t2) →
  home sv POST link answers s =
    Some (Return (RenderIndex (with_video_stats initial_locals (Some vs))), s,
          VideosList video_id :: t2).
Proof.
  intros Hid Hne Hst Hc. unfold home. rewrite Hid.
  destruct video_id as [|c id]; [done|]. simpl.
  pose proof (get_video_stats_trace sv (c :: id)) as Ht.
  destruct (get_video_stats sv (c :: id)) as [o t]. simpl in *. subst.
  by rewrite Hc.
Qed.

(** The loop appends every comment to [all_text], behind a space. *)
Lemma classify_loop_text sv comments_data st all_text st' all_text' trace :
  classify_loop sv comments_data st all_text = (st', all_text', trace) →
  all_text' = all_text ++ concat (map (λ c, lit " " ++ c.1) comments_data).
Proof.
  revert st all_text st' all_text' trace.
  induction comments_data as [|[comment like_count] rest IH];
    intros st all_text st' all_text' trace.
  - intros [= _ <- _]. by rewrite app_nil_r.
  - cbn [classify_loop]. destruct (analyze_sentiment sv comment) as [lab t].
    match goal with |- context [classify_loop sv rest ?s ?a] =>
      specialize (IH s a); destruct (classify_loop sv rest s a) as [[st1 txt1] t1]
    end.
    intros [= _ <- _]. rewrite (IH _ _ _ eq_refl).
    cbn [map concat fst]. by rewrite <- !app_assoc.
Qed.

Lemma home_analysis sv link video_id vs answers comments_data t2 s st all_text t3 :
  extract_video_id link = Return (Some video_id) → video_id ≠ [] →
  (get_video_stats sv video_id).1 = Some vs →
  get_comments video_id answers = Some (comments_data, t2) →
  comments_data ≠ [] →
  classify_loop sv comments_data (with_video_stats initial_locals (Some vs)) []
    = (st, all_text, t3) →
  let ctx := with_top_liked_comments st (top_liked comments_data) in
  let text := cloud_text comments_data in
  home sv POST link answers s =
    match wordcloud_png sv text with
    | Return image =>
        Some (Return (RenderIndex ctx),
              report_dict vs ctx image,
              VideosList video_id :: t2 ++ t3 ++ [WordCloudGenerate text])
    | Raise e =>
        Some (Raise e, s, VideosList video_id :: t2 ++ t3 ++ [WordCloudGenerate text])
    end.
Proof.
  intros Hid Hne Hst Hc Hcd Hloop. unfold home. rewrite Hid.
  destruct video_id as [|c id]; [done|]. simpl.
  pose proof (get_video_stats_trace sv (c :: id)) as Ht.
  destruct (get_video_stats sv (c :: id)) as [o t]. simpl in *. subst.
  rewrite Hc.
  assert (Htext : (if negb (truthy (strip all_text))
                   then lit "No comments available" else all_text)
                  = cloud_text comments_data).
  { apply classify_loop_text in Hloop. cbn [app] in Hloop.
    unfold cloud_text. rewrite strip_falsy. by rewrite Hloop. }
  destruct comments_data as [|c0 cd]; [done|].
  rewrite Hloop.
  match goal with |- context [wordcloud_png sv ?x] =>
    assert (Hx : x = cloud_text (c0 :: cd)) by exact Htext; rewrite Hx
  end.
  by destruct (wordcloud_png sv _).
Qed.

(** The cases are all the cases: a run that returns is one of the four. *)
Lemma home_cases sv link answers s out s' trace :
  home sv POST link answers s = Some (out, s', trace) →
  (invalid_link link ∧ s' = s ∧ trace = []) ∨
  ∃ video_id,
    extract_video_id link = Return (Some video_id) ∧ video_id ≠ [] ∧
    (((get_video_stats sv video_id).1 = None ∧ s' = s ∧
      out = Return (RenderIndexError (lit "Unable to fetch video details.")) ∧
      trace = [VideosList video_id]) ∨
     ∃ vs comments_data t2,
       (get_video_stats sv video_id).1 = Some vs ∧
       get_comments video_id answers = Some (comments_data, t2) ∧
       ((comments_data = [] ∧ s' = s ∧
         out = Return (RenderIndex (with_video_stats initial_locals (Some vs))) ∧
         trace = VideosList video_id :: t2) ∨
        ∃ st all_text t3,
          comments_data ≠ [] ∧
          classify_loop sv comments_data (with_video_stats initial_locals (Some vs)) []
            = (st, all_text, t3) ∧
          trace = VideosList video_id :: t2 ++ t3 ++
                    [WordCloudGenerate (cloud_text comments_data)] ∧
          ((∃ image,
              wordcloud_png sv (cloud_text comments_data) = Return image ∧
              out = Return (RenderIndex
                      (with_top_liked_comments st (top_liked comments_data))) ∧
              s' = report_dict vs (with_top_liked_comments st (top_liked comments_data))
                     image) ∨
           (∃ e, wordcloud_png sv (cloud_text comments_data) = Raise e ∧
                 out = Raise e ∧ s' = s)))).
Proof.
  intros Hrun.
  destruct (extract_video_id link) as [[[|c id]|]|e] eqn:Hid.
  1, 3, 4: left; assert (Hinv : invalid_link link)
    by (unfold invalid_link; rewrite Hid; by intros ? [= <-] || by intros ? [= ]);
    destruct (home_invalid_link sv link answers s Hinv) as (out' & Hrun' & _);
    rewrite Hrun' in Hrun; by injection Hrun as <- <- <-.
  right. exists (c :: id). split; [done|]. split; [done|].
  destruct ((get_video_stats sv (c :: id)).1) as [vs|] eqn:Hst.
  - right. exists vs.
    destruct (get_comments (c :: id) answers) as [[cd t2]|] eqn:Hc; cycle 1.
    { unfold home in Hrun. rewrite Hid in Hrun. simpl in Hrun.
      destruct (get_video_stats sv (c :: id)) as [o t]. simpl in Hst. subst o.
      by rewrite Hc in Hrun. }
    exists cd, t2. split; [done|]. split; [done|].
    destruct cd as [|c0 cd].
    + left. rewrite (home_no_comments sv link (c :: id) vs answers t2 s) in Hrun by done.
      by injection Hrun as <- <- <-.
    + right.
      destruct (classify_loop sv (c0 :: cd) (with_video_stats initial_locals (Some vs)) [])
        as [[st all_text] t3] eqn:Hloop.
      rewrite (home_analysis sv link (c :: id) vs answers (c0 :: cd) t2 s st all_text t3)
        in Hrun by done.
      cbv zeta in Hrun. exists st, all_text, t3.
      split; [done|]. split; [done|].
      destruct (wordcloud_png sv _) as [image | e] eqn:Hrender;
        injection Hrun as <- <- <-; (split; [done|]); [left | right]; eauto.
  - left. rewrite (home_no_stats sv link (c :: id) answers s) in Hrun by done.
    by injection Hrun as <- <- <-.
Qed.

(** ** The report store *)

Lemma report_dict_nonempty vs ctx image : size (report_dict vs ctx image) ≠ 0%nat.
Proof.
  unfold report_dict. rewrite map_size_empty_iff. apply insert_non_empty.
Qed.

Lemma report_dict_dom vs ctx image :
  dom (report_dict vs ctx image) =
  ({["video_stats"; "positive"; "negative"; "neutral"; "wordcloud_image"]} : gset string).
Proof. unfold report_dict. rewrite !dom_insert_L, dom_empty_L. set_solver. Qed.

Lemma report_dict_lookup vs ctx image :
  report_dict vs ctx image !! "video_stats" = Some (PStats vs) ∧
  report_dict vs ctx image !! "positive" = Some (PInt (positive ctx)) ∧
  report_dict vs ctx image !! "negative" = Some (PInt (negative ctx)) ∧
  report_dict vs ctx image !! "neutral" = Some (PInt (neutral ctx)) ∧
  report_dict vs ctx image !! "wordcloud_image" = Some (PBytes image).
Proof.
  unfold report_dict.
  repeat split; rewrite ?lookup_insert_ne by done; apply lookup_insert_eq.
Qed.

(** Reading a stored analysis compiles the document of that analysis. *)
Lemma download_report_stored doc_build vs ctx image :
  download_report doc_build (report_dict vs ctx image) =
    Return (SendFile (doc_build (report_elements vs ctx image))
              "YouTube_Analysis_Report.pdf" "application/pdf").
Proof.
  unfold download_report.
  destruct (size (report_dict vs ctx image) =? 0)%nat eqn:E.
  { apply Nat.eqb_eq in E. by apply report_dict_nonempty in E. }
  destruct (report_dict_lookup vs ctx image) as (H1 & H2 & H3 & H4 & H5).
  unfold getitem. rewrite H1, H2, H3, H4, H5. reflexivity.
Qed.

Lemma get_video_stats_same sv sv' video_id :
  videos_list sv' = videos_list sv →
  get_video_stats sv' video_id = get_video_stats sv video_id.
Proof. intros H. unfold get_video_stats. by rewrite H. Qed.

Lemma top_liked_length comments_data :
  length (top_liked comments_data) = (5 `min` length comments_data)%nat.
Proof.
  unfold top_liked. rewrite length_take.
  by rewrite (Permutation_length (sorted_reverse_perm snd comments_data)).
Qed.

Lemma classify_loop_top_liked sv comments_data st all_text :
  top_liked_comments (classify_loop sv comments_data st all_text).1.1
    = top_liked_comments st.
Proof.
  destruct (classify_loop sv comments_data st all_text) as [[st' txt] t] eqn:E.
  by apply classify_loop_spec in E as (_ & _ & _ & _ & _ & _ & _ & ? & _).
Qed.

(** C4.  In a run of [home] that reaches the template without error message,
    [top_liked_comments] is the first 5 (all, when fewer) of a rearrangement of
    the collected comments that is descending in like count and keeps the
    comments of equal like count in their collected order.  It is the same for
    every inference engine: labels have no part in it.  (The other services
    need only answer the same metadata and, when comments were collected,
    render their text, so that the run reaches the template.) *)
Theorem top_liked_selection sv link answers s ctx s' trace :
  home sv POST link answers s = Some (Return (RenderIndex ctx), s', trace) →
  error_message ctx = [] →
  ∃ video_id comments_data t sorted,
    extract_video_id link = Return (Some video_id) ∧
    get_comments video_id answers = Some (comments_data, t) ∧
    sorted ≡ₚ comments_data ∧
    descending sorted ∧
    (∀ k, with_likes k sorted = with_likes k comments_data) ∧
    top_liked_comments ctx = take 5 sorted ∧
    length (top_liked_comments ctx) = (5 `min` length comments_data)%nat ∧
    ∀ sv', videos_list sv' = videos_list sv →
      (comments_data ≠ [] →
       ∃ image, wordcloud_png sv' (cloud_text comments_data) = Return image) →
      ∃ ctx' s'' trace',
        home sv' POST link answers s = Some (Return (RenderIndex ctx'), s'', trace') ∧
        top_liked_comments ctx' = top_liked_comments ctx.
Proof.
  intros Hrun Herr.
  destruct (home_cases _ _ _ _ _ _ _ Hrun) as [(Hinv & _ & _) | (video_id & Hid & Hne & Hc)].
  { destruct (home_invalid_link sv link answers s Hinv) as (out & Hrun' & Hctx).
    rewrite Hrun' in Hrun. injection Hrun as -> _ _.
    by rewrite (Hctx ctx eq_refl) in Herr. }
  destruct Hc as [(_ & _ & ? & _) | (vs & comments_data & t2 & Hst & Hcom & Hc)]; [done|].
  exists video_id, comments_data, t2, (sorted_reverse snd comments_data).
  assert (Htop : top_liked_comments ctx = top_liked comments_data).
  { destruct Hc as [(-> & _ & [= ->] & _) | (st & txt & t3 & _ & _ & _ & Hrender)];
      [done|].
    by destruct Hrender as [(image & _ & [= ->] & _) | (e & _ & [=] & _)]. }
  split; [done|]. split; [done|]. split; [apply sorted_reverse_perm|].
  split; [apply sorted_reverse_sorted|]. split; [intros k; apply sorted_reverse_stable|].
  split; [done|]. split; [rewrite Htop; apply top_liked_length|].
  intros sv' Hsv' Hrender'. rewrite Htop.
  destruct comments_data as [|c0 cd].
  - exists (with_video_stats initial_locals (Some vs)), s, (VideosList video_id :: t2).
    split; [|reflexivity].
    apply home_no_comments; [done | done | | done].
    by rewrite (get_video_stats_same sv sv').
  - destruct (classify_loop sv' (c0 :: cd) (with_video_stats initial_locals (Some vs)) [])
      as [[st' txt'] t3'] eqn:Hloop.
    destruct Hrender' as [image Himage]; [done|].
    pose proof (home_analysis sv' link video_id vs answers (c0 :: cd) t2 s st' txt' t3')
      as Hrun'.
    cbv zeta in Hrun'. rewrite Himage in Hrun'.
    eexists _, _, _. split.
    + apply Hrun'; [done | done | | done | done | done].
      by rewrite (get_video_stats_same sv sv').
    + done.
Qed.

(** C5.  Reading the empty store gives the message that there is no report.
    A run that collects comments and gets its word cloud rendered writes the
    store: whatever the store held before, it then holds exactly the five
    fields of this run, and a read compiles the document of these fields.
    When the renderer raises instead, the run ends with that exception before
    the assignment: there is no write, and the store is as it was. *)
Theorem report_store_last_write doc_build sv link video_id vs answers comments_data t2 :
  extract_video_id link = Return (Some video_id) → video_id ≠ [] →
  (get_video_stats sv video_id).1 = Some vs →
  get_comments video_id answers = Some (comments_data, t2) →
  comments_data ≠ [] →
  download_report doc_build ∅ = Return (PlainText (lit "No report available.")) ∧
  (∀ image,
     wordcloud_png sv (cloud_text comments_data) = Return image →
     ∃ ctx trace,
       (∀ A1, home sv POST link answers A1 =
                Some (Return (RenderIndex ctx), report_dict vs ctx image, trace)) ∧
       video_stats ctx = Some vs ∧
       dom (report_dict vs ctx image) =
         ({["video_stats"; "positive"; "negative"; "neutral"; "wordcloud_image"]}
            : gset string) ∧
       download_report doc_build (report_dict vs ctx image) =
         Return (SendFile (doc_build (report_elements vs ctx image))
                   "YouTube_Analysis_Report.pdf" "application/pdf")) ∧
  (∀ e,
     wordcloud_png sv (cloud_text comments_data) = Raise e →
     ∃ trace, ∀ A1, home sv POST link answers A1 = Some (Raise e, A1, trace)).
Proof.
  intros Hid Hne Hst Hcom Hcd. split; [done|].
  destruct (classify_loop sv comments_data (with_video_stats initial_locals (Some vs)) [])
    as [[st txt] t3] eqn:Hloop.
  pose proof (home_analysis sv link video_id vs answers comments_data t2) as Hrun.
  specialize (λ s, Hrun s st txt t3 Hid Hne Hst Hcom Hcd Hloop). cbv zeta in Hrun.
  split.
  - intros image Himage. rewrite Himage in Hrun.
    eexists _, _. split; [exact Hrun|].
    split; [|split; [apply report_dict_dom | apply download_report_stored]].
    apply classify_loop_spec in Hloop as (_ & _ & _ & _ & _ & _ & Hvs & _). by simpl.
  - intros e He. rewrite He in Hrun. eexists. exact Hrun.
Qed.

(** C8 (the code at the failing input).  With the form field missing,
    [request.form.get] gives [None], and the membership test of
    [extract_video_id] raises [TypeError]: the route fails with that exception
    instead of reporting an invalid link.  The empty link is reported as
    invalid, without any external call. *)
Theorem home_absent_link_raises sv answers s :
  extract_video_id None = Raise TypeError ∧
  home sv POST None answers s = Some (Raise TypeError, s, []) ∧
  extract_video_id (Some []) = Return None ∧
  home sv POST (Some []) answers s =
    Some (Return (RenderIndex
            (with_error_message initial_locals (lit "Invalid YouTube Link!"))), s, []).
Proof. done. Qed.

Lemma metadata_unavailable_no_stats sv link :
  metadata_unavailable sv link →
  ∃ video_id, extract_video_id link = Return (Some video_id) ∧ video_id ≠ [] ∧
              (get_video_stats sv video_id).1 = None.
Proof.
  intros (video_id & Hid & Hne & Hv). exists video_id. split; [done|]. split; [done|].
  unfold get_video_stats. by destruct Hv as [-> | ->].
Qed.

(** C9.  When the link is invalid or the metadata lookup faults or finds
    nothing, [home] returns with the store exactly as it was; it renders an
    error message and the only external call it may have made is the metadata
    lookup. *)
Theorem halted_run_keeps_store sv link answers s :
  invalid_link link ∨ metadata_unavailable sv link →
  ∃ out trace,
    home sv POST link answers s = Some (out, s, trace) ∧
    (∀ ctx, out = Return (RenderIndex ctx) → error_message ctx ≠ []) ∧
    (∀ c, c ∈ trace → ∃ video_id, c = VideosList video_id).
Proof.
  intros [Hinv | Hmeta].
  - destruct (home_invalid_link sv link answers s Hinv) as (out & Hrun & Hctx).
    exists out, []. split; [done|]. split.
    + intros ctx ->. by rewrite (Hctx ctx eq_refl).
    + intros c Hc. by apply elem_of_nil in Hc.
  - apply metadata_unavailable_no_stats in Hmeta as (video_id & Hid & Hne & Hst).
    eexists _, _. split; [by apply home_no_stats|]. split; [done|].
    intros c Hc. apply list_elem_of_singleton in Hc. eauto.
Qed.

(** A run leaves the store as it was or holds a complete analysis: all five
    fields, written at once. *)
Lemma home_store_complete sv method link answers s out s' trace :
  home sv method link answers s = Some (out, s', trace) →
  s' = s ∨ ∃ vs ctx image, s' = report_dict vs ctx image.
Proof.
  destruct method; [by intros [= _ <- _]; left|]. intros Hrun.
  destruct (home_cases _ _ _ _ _ _ _ Hrun)
    as [(_ & -> & _) | (video_id & _ & _ & [(_ & -> & _) | (vs & cd & t2 & _ & _ & Hc)])];
    [by left | by left |].
  destruct Hc as [(_ & -> & _) | (st & txt & t3 & _ & _ & _ & Hrender)]; [by left|].
  destruct Hrender as [(image & _ & _ & ->) | (e & _ & _ & ->)]; [right; eauto | by left].
Qed.

Lemma get_comments_loop_trace video_id answers tok comments r trace :
  get_comments_loop video_id answers tok comments = Some (r, trace) →
  ∀ c, c ∈ trace → ∃ id n token, c = CommentThreadsList id n token.
Proof.
  revert tok comments r trace.
  induction answers as [|[|p] answers IH]; intros tok comments r trace;
    cbn [get_comments_loop]; [done | |].
  - intros [= <- <-] c Hc%list_elem_of_singleton. eauto.
  - destruct (collect_items (default [] (items p)) comments) as [cs | cs].
    + intros [= <- <-] c Hc%list_elem_of_singleton. eauto.
    + destruct (truthy (default [] (nextPageToken p))).
      * destruct (get_comments_loop video_id answers (nextPageToken p) cs)
          as [[r' t']|] eqn:E; [|done].
        intros [= <- <-] c [-> | Hc]%elem_of_cons; [eauto | by eapply IH].
      * intros [= <- <-] c Hc%list_elem_of_singleton. eauto.
Qed.

(** C10.  When comment collection returns the empty list, [home] renders
    zero counts with the video statistics, leaves the store as it was, does
    not call the word-cloud renderer, and a later read of the report gives
    what it gave before. *)
Theorem empty_collection_writes_nothing doc_build sv link video_id vs answers t2 s :
  extract_video_id link = Return (Some video_id) → video_id ≠ [] →
  (get_video_stats sv video_id).1 = Some vs →
  get_comments video_id answers = Some ([], t2) →
  ∃ ctx s' trace,
    home sv POST link answers s = Some (Return (RenderIndex ctx), s', trace) ∧
    positive ctx = 0 ∧ negative ctx = 0 ∧ neutral ctx = 0 ∧
    video_stats ctx = Some vs ∧ error_message ctx = [] ∧
    s' = s ∧
    (∀ text, WordCloudGenerate text ∉ trace) ∧
    download_report doc_build s' = download_report doc_build s.
Proof.
  intros Hid Hne Hst Hcom.
  exists (with_video_stats initial_locals (Some vs)), s, (VideosList video_id :: t2).
  split; [by apply home_no_comments|]. repeat (split; [done|]). split; [|done].
  intros text [[=] | Hin]%elem_of_cons.
  unfold get_comments in Hcom.
  by apply (get_comments_loop_trace _ _ _ _ _ _ Hcom) in Hin as (? & ? & ? & [=]).
Qed.

(** ** The theorems at sample inputs *)

Lemma top_liked_selection_witness :
  ∃ ctx s' trace,
    home demo_services POST demo_link demo_answers ∅
      = Some (Return (RenderIndex ctx), s', trace) ∧
    error_message ctx = [] ∧
    ∃ video_id comments_data t sorted,
      extract_video_id demo_link = Return (Some video_id) ∧
      get_comments video_id demo_answers = Some (comments_data, t) ∧
      sorted ≡ₚ comments_data ∧
      descending sorted ∧
      (∀ k, with_likes k sorted = with_likes k comments_data) ∧
      top_liked_comments ctx = take 5 sorted ∧
      length (top_liked_comments ctx) = (5 `min` length comments_data)%nat ∧
      ∀ sv', videos_list sv' = videos_list demo_services →
        (comments_data ≠ [] →
         ∃ image, wordcloud_png sv' (cloud_text comments_data) = Return image) →
        ∃ ctx' s'' trace',
          home sv' POST demo_link demo_answers ∅
            = Some (Return (RenderIndex ctx'), s'', trace') ∧
          top_liked_comments ctx' = top_liked_comments ctx.
Proof.
  eexists _, _, _. split; [vm_compute; reflexivity|]. split; [reflexivity|].
  eapply (top_liked_selection demo_services demo_link demo_answers ∅);
    [vm_compute; reflexivity | reflexivity].
Defined.

Lemma report_store_last_write_witness :
  (∃ video_id vs comments_data t2 image,
     extract_video_id demo_link = Return (Some video_id) ∧ video_id ≠ [] ∧
     (get_video_stats demo_services video_id).1 = Some vs ∧
     get_comments video_id demo_answers = Some (comments_data, t2) ∧
     comments_data ≠ [] ∧
     wordcloud_png demo_services (cloud_text comments_data) = Return image ∧
     download_report demo_doc_build ∅ = Return (PlainText (lit "No report available.")) ∧
     ∃ ctx trace,
       (∀ A1, home demo_services POST demo_link demo_answers A1 =
                Some (Return (RenderIndex ctx), report_dict vs ctx image, trace)) ∧
       video_stats ctx = Some vs ∧
       dom (report_dict vs ctx image) =
         ({["video_stats"; "positive"; "negative"; "neutral"; "wordcloud_image"]}
            : gset string) ∧
       download_report demo_doc_build (report_dict vs ctx image) =
         Return (SendFile (demo_doc_build (report_elements vs ctx image))
                   "YouTube_Analysis_Report.pdf" "application/pdf")) ∧
  (∃ video_id vs comments_data t2 e,
     extract_video_id demo_link = Return (Some video_id) ∧ video_id ≠ [] ∧
     (get_video_stats demo_services video_id).1 = Some vs ∧
     get_comments video_id demo_wordless_answers = Some (comments_data, t2) ∧
     comments_data ≠ [] ∧
     wordcloud_png demo_services (cloud_text comments_data) = Raise e ∧
     ∃ trace, ∀ A1, home demo_services POST demo_link demo_wordless_answers A1
                      = Some (Raise e, A1, trace)).
Proof.
  split.
  - eexists _, _, _, _, _.
    split; [vm_compute; reflexivity|]. split; [done|].
    split; [vm_compute; reflexivity|]. split; [vm_compute; reflexivity|].
    split; [done|]. split; [vm_compute; reflexivity|].
    destruct (report_store_last_write demo_doc_build demo_services demo_link
                (lit "ABC123") _ demo_answers _ _
                ltac:(vm_compute; reflexivity) ltac:(done)
                ltac:(vm_compute; reflexivity) ltac:(vm_compute; reflexivity)
                ltac:(done)) as (Hread & Hwrite & _).
    split; [exact Hread|]. apply Hwrite. vm_compute. reflexivity.
  - eexists _, _, _, _, _.
    split; [vm_compute; reflexivity|]. split; [done|].
    split; [vm_compute; reflexivity|]. split; [vm_compute; reflexivity|].
    split; [done|]. split; [vm_compute; reflexivity|].
    destruct (report_store_last_write demo_doc_build demo_services demo_link
                (lit "ABC123") _ demo_wordless_answers _ _
                ltac:(vm_compute; reflexivity) ltac:(done)
                ltac:(vm_compute; reflexivity) ltac:(vm_compute; reflexivity)
                ltac:(done)) as (_ & _ & Hraise).
    apply Hraise. vm_compute. reflexivity.
Defined.

Lemma halted_run_keeps_store_witness :
  (invalid_link (Some (lit "https://example.org/clip")) ∨
   metadata_unavailable demo_services (Some (lit "https://example.org/clip"))) ∧
  ∃ out trace,
    home demo_services POST (Some (lit "https://example.org/clip")) demo_answers
      (report_dict (Build_stats [] (JInt 0) (JInt 0) (JInt 0)) initial_locals [])
      = Some (out, report_dict (Build_stats [] (JInt 0) (JInt 0) (JInt 0)) initial_locals [],
              trace) ∧
    (∀ ctx, out = Return (RenderIndex ctx) → error_message ctx ≠ []) ∧
    (∀ c, c ∈ trace → ∃ video_id, c = VideosList video_id).
Proof.
  assert (H : invalid_link (Some (lit "https://example.org/clip"))).
  { intros video_id Hid. vm_compute in Hid. discriminate. }
  split; [by left|].
  apply (halted_run_keeps_store demo_services (Some (lit "https://example.org/clip"))).
  by left.
Defined.

Lemma empty_collection_writes_nothing_witness :
  ∃ video_id vs t2,
    extract_video_id demo_link = Return (Some video_id) ∧ video_id ≠ [] ∧
    (get_video_stats demo_services video_id).1 = Some vs ∧
    get_comments video_id [ThreadsHttpError] = Some ([], t2) ∧
    ∃ ctx s' trace,
      home demo_services POST demo_link [ThreadsHttpError]
        (report_dict vs initial_locals []) = Some (Return (RenderIndex ctx), s', trace) ∧
      positive ctx = 0 ∧ negative ctx = 0 ∧ neutral ctx = 0 ∧
      video_stats ctx = Some vs ∧ error_message ctx = [] ∧
      s' = report_dict vs initial_locals [] ∧
      (∀ text, WordCloudGenerate text ∉ trace) ∧
      download_report demo_doc_build s'
        = download_report demo_doc_build (report_dict vs initial_locals []).
Proof.
  eexists _, _, _.
  split; [vm_compute; reflexivity|]. split; [done|].
  split; [vm_compute; reflexivity|]. split; [vm_compute; reflexivity|].
  eapply (empty_collection_writes_nothing demo_doc_build demo_services demo_link);
    [vm_compute; reflexivity | done | vm_compute; reflexivity | vm_compute; reflexivity].
Defined.

(** * Further properties *)

(** The leftmost occurrence is the one [find_split] cuts at. *)
Lemma find_split_first sep pre rest :
  (∀ a b, pre ++ sep ++ rest = a ++ sep ++ b → (length pre ≤ length a)%nat) →
  find_split sep (pre ++ sep ++ rest) = Some (pre, rest).
Proof.
  intros Hmin.
  destruct (find_split sep (pre ++ sep ++ rest)) as [[a b]|] eqn:F.
  - apply find_split_Some in F as [Heq Hmin'].
    assert (Hlen : length pre = length a).
    { apply Nat.le_antisymm; [by apply (Hmin a b) | by apply (Hmin' pre rest)]. }
    apply app_inj_1 in Heq as [-> Heq]; [|done].
    by apply app_inv_head in Heq as ->.
  - apply find_split_None in F.
    assert (contains sep (pre ++ sep ++ rest) = true) by (apply contains_spec; eauto).
    congruence.
Qed.

Lemma starts_with_app_inv m x y :
  starts_with m (x ++ y) = true →
  starts_with m x = true ∨ ∃ m2, m = x ++ m2 ∧ m2 ≠ [] ∧ starts_with m2 y = true.
Proof.
  revert x. induction m as [|a m IH]; intros x; [by left|].
  destruct x as [|b x]; cbn [app].
  - intros H. right. by exists (a :: m).
  - cbn [starts_with]. intros [Hab H]%andb_true_iff. rewrite Hab. cbn [andb].
    apply Ascii.eqb_eq in Hab as ->.
    destruct (IH _ H) as [? | (m2 & -> & ? & ?)]; [by left | right; eauto].
Qed.

Lemma starts_with_contains m s : starts_with m s = true → contains m s = true.
Proof. destruct s; cbn [contains]; [done|]. by intros ->. Qed.

Lemma contains_cons_false m c s : contains m (c :: s) = false → contains m s = false.
Proof. cbn [contains]. by intros [_ ?]%orb_false_iff. Qed.

Lemma head_piece_cons sep c s :
  starts_with sep (c :: s) = false → head_piece sep (c :: s) = c :: head_piece sep s.
Proof.
  intros H. unfold head_piece. cbn [find_split]. rewrite H.
  by destruct (find_split sep s) as [[??]|].
Qed.

(** Cutting [x ++ tail] at the first [sep], where [x] holds no [sep] and
    [tail] begins with a character [d] that [sep] does not hold, cuts at the
    end of [x] or behind it. *)
Lemma head_piece_app sep d x tail :
  sep ≠ [] → d ∉ sep → contains sep x = false →
  tail = [] ∨ (∃ t, tail = d :: t) →
  ∃ t1, head_piece sep (x ++ tail) = x ++ t1 ∧ (t1 = [] ∨ ∃ t, t1 = d :: t).
Proof.
  intros Hsep Hd. induction x as [|c x IH]; intros Hx Htail; cbn [app].
  - destruct Htail as [-> | [t ->]].
    + exists []. split; [|by left]. unfold head_piece. by rewrite find_split_nil.
    + assert (Hs : starts_with sep (d :: t) = false).
      { destruct sep as [|a sep]; [done|]. cbn [starts_with].
        destruct (Ascii.eqb_spec a d) as [-> | ?]; [|done].
        exfalso. apply Hd, list_elem_of_here. }
      rewrite head_piece_cons by done. exists (d :: head_piece sep t). eauto.
  - assert (Hs : starts_with sep (c :: x ++ tail) = false).
    { destruct (starts_with sep (c :: x ++ tail)) eqn:E; [|done].
      apply (starts_with_app_inv sep (c :: x) tail) in E
        as [E | (m2 & -> & Hm2 & E)].
      - apply starts_with_contains in E. congruence.
      - destruct Htail as [-> | [t ->]]; [by destruct m2|].
        destruct m2 as [|e m2]; [done|]. cbn [starts_with] in E.
        apply andb_true_iff in E as [->%Ascii.eqb_eq _].
        exfalso. apply Hd. apply elem_of_app. right. apply list_elem_of_here. }
    rewrite head_piece_cons by done.
    destruct (IH (contains_cons_false _ _ _ Hx) Htail) as (t1 & -> & Ht1).
    by exists t1.
Qed.

Lemma starts_with_single d s : starts_with [d] s = true ↔ ∃ t, s = d :: t.
Proof. rewrite starts_with_spec. naive_solver. Qed.

Lemma contains_single d s : contains [d] s = false ↔ d ∉ s.
Proof.
  split.
  - intros H Hin. apply list_elem_of_split in Hin as (a & b & ->).
    assert (contains [d] (a ++ d :: b) = true) by (apply contains_spec; by exists a, b).
    congruence.
  - intros Hn. destruct (contains [d] s) eqn:E; [|done].
    apply contains_spec in E as (a & b & ->). exfalso. apply Hn.
    apply elem_of_app. right. apply list_elem_of_here.
Qed.

Lemma head_piece_single d x tail :
  d ∉ x → tail = [] ∨ (∃ t, tail = d :: t) → head_piece [d] (x ++ tail) = x.
Proof.
  intros Hx Htail. induction x as [|c x IH]; cbn [app].
  - destruct Htail as [-> | [t ->]]; [done|].
    unfold head_piece. cbn [find_split starts_with]. by rewrite Ascii.eqb_refl.
  - apply not_elem_of_cons in Hx as [Hc Hx].
    rewrite head_piece_cons, IH; [done | done |].
    cbn [starts_with]. destruct (Ascii.eqb_spec d c); [congruence | done].
Qed.

Lemma extract_shape_exact marker d link id :
  marker ≠ [] → d ∉ marker →
  identifier_up_to [[d]] marker link id →
  contains marker id = false →
  (part ← subscript (split marker link) 1;
   id ← subscript (split [d] part) 0;
   Return (Some id)) = Return (Some id).
Proof.
  intros Hm Hd (pre & rest & -> & Hmin & Hstop & Hrest) Hid.
  assert (Hdid : d ∉ id) by (apply contains_single, Hstop, list_elem_of_here).
  assert (Htail : rest = [] ∨ ∃ t, rest = d :: t).
  { destruct Hrest as [? | (stop & ->%list_elem_of_singleton & Hs)]; [by left|].
    right. by apply starts_with_single. }
  pose proof (find_split_first marker pre (id ++ rest) Hmin) as F.
  unfold subscript. rewrite (split_second _ _ _ _ Hm F). cbn [mbind result_bind].
  rewrite split_head by done. cbn [mbind result_bind]. do 2 f_equal.
  destruct (head_piece_app marker d id rest Hm Hd Hid Htail) as (t1 & -> & Ht1).
  by apply head_piece_single.
Qed.

Lemma recognised_shape_cases link marker delim :
  recognised_shape link = Some (marker, delim) →
  ∃ d, delim = [d] ∧ marker ≠ [] ∧ (d ∉ marker) ∧ contains marker link = true ∧
       extract_video_id (Some link) =
         (part ← subscript (split marker link) 1;
          id ← subscript (split [d] part) 0;
          Return (Some id)).
Proof.
  assert (Hnot : ∀ (d : ascii) l, forallb (λ c, negb (Ascii.eqb d c)) l = true → d ∉ l).
  { intros d l H Hin. rewrite forallb_forall in H. apply list_elem_of_In in Hin.
    apply H in Hin. by rewrite Ascii.eqb_refl in Hin. }
  unfold recognised_shape, extract_video_id.
  destruct (contains (lit "v=") link) eqn:E1.
  { intros [= <- <-]. exists "&"%char. repeat split; [done | by apply Hnot | done]. }
  destruct (contains (lit "youtu.be/") link) eqn:E2.
  { intros [= <- <-]. exists "?"%char. repeat split; [done | by apply Hnot | done]. }
  destruct (contains (lit "shorts/") link) eqn:E3; [|done].
  intros [= <- <-]. exists "?"%char. repeat split; [done | by apply Hnot | done].
Qed.

(** X2.  When the text between the first marker of the recognised shape and
    the next delimiter (or the end of the link) does not hold the marker
    again, [extract_video_id] returns exactly that text. *)
Theorem extract_video_id_up_to_delimiter link marker delim id :
  recognised_shape link = Some (marker, delim) →
  identifier_up_to [delim] marker link id →
  contains marker id = false →
  extract_video_id (Some link) = Return (Some id).
Proof.
  intros (d & -> & Hm & Hd & _ & ->)%recognised_shape_cases Hup Hid.
  by apply extract_shape_exact.
Qed.

(** X1.  [extract_video_id] raises on [None] only, and then [TypeError]: on
    every string it returns, an identifier or [None]; the two subscripts never
    fail. *)
Theorem extract_video_id_raises_on_None_only link :
  match link with
  | None => extract_video_id link = Raise TypeError
  | Some s => ∃ r, extract_video_id link = Return r
  end.
Proof.
  destruct link as [s|]; [|done].
  destruct (recognised_shape s) as [[marker delim]|] eqn:E.
  - apply recognised_shape_cases in E as (d & -> & Hm & Hd & Hc & ->).
    assert (Hd' : [d] ≠ []) by done.
    destruct (extract_shape marker [d] s Hm Hd' Hc) as (id & -> & _). eauto.
  - unfold recognised_shape in E. unfold extract_video_id.
    repeat (destruct (contains _ s); [done|]). eauto.
Qed.

Lemma extract_video_id_up_to_delimiter_witness :
  recognised_shape (lit "https://youtu.be/dQw4w9WgXcQ?t=42")
    = Some (lit "youtu.be/", lit "?") ∧
  identifier_up_to [lit "?"] (lit "youtu.be/")
    (lit "https://youtu.be/dQw4w9WgXcQ?t=42") (lit "dQw4w9WgXcQ") ∧
  contains (lit "youtu.be/") (lit "dQw4w9WgXcQ") = false ∧
  extract_video_id (Some (lit "https://youtu.be/dQw4w9WgXcQ?t=42"))
    = Return (Some (lit "dQw4w9WgXcQ")).
Proof.
  assert (Hup : identifier_up_to [lit "?"] (lit "youtu.be/")
                  (lit "https://youtu.be/dQw4w9WgXcQ?t=42") (lit "dQw4w9WgXcQ")).
  { exists (lit "https://"), (lit "?t=42"). split; [reflexivity|]. split.
    - apply (find_split_Some (lit "youtu.be/") _ _ (lit "dQw4w9WgXcQ?t=42")).
      vm_compute. reflexivity.
    - split.
      + intros stop Hstop. apply list_elem_of_singleton in Hstop. subst stop.
        vm_compute. reflexivity.
      + right. exists (lit "?"). split; [apply list_elem_of_here | vm_compute; reflexivity]. }
  split; [vm_compute; reflexivity|]. split; [exact Hup|]. split; [vm_compute; reflexivity|].
  apply (extract_video_id_up_to_delimiter _ (lit "youtu.be/") (lit "?"));
    [vm_compute; reflexivity | exact Hup | vm_compute; reflexivity].
Defined.

Lemma lazy_until_gt_sub_tags s :
  lazy_until_gt s = None → lazy_until_gt (sub_tags_from false s) = None.
Proof.
  induction s as [|c s IH]; [done|]. cbn [lazy_until_gt sub_tags_from].
  destruct (Ascii.eqb_spec c ">") as [-> | Hgt]; [done|].
  destruct (Ascii.eqb_spec c "010") as [-> | Hnl]; [done|].
  intros Hs. rewrite Hs. rewrite bool_decide_eq_false_2 by (by intros [? ?]).
  rewrite andb_false_r. cbn [lazy_until_gt].
  destruct (Ascii.eqb_spec c ">"); [done|]. destruct (Ascii.eqb_spec c "010"); [done|].
  by apply IH.
Qed.

Lemma sub_tags_from_tag_free inside s : tag_free (sub_tags_from inside s) = true.
Proof.
  revert inside. induction s as [|c s IH]; intros inside; [by destruct inside|].
  cbn [sub_tags_from]. destruct inside.
  { destruct (Ascii.eqb c ">"); apply IH. }
  destruct (Ascii.eqb_spec c "<") as [-> | Hlt]; cbn [andb].
  - destruct (lazy_until_gt s) as [rest|] eqn:E.
    + rewrite bool_decide_eq_true_2 by eauto. apply IH.
    + rewrite bool_decide_eq_false_2 by (by intros [? ?]).
      cbn [tag_free]. rewrite (lazy_until_gt_sub_tags s E).
      rewrite bool_decide_eq_false_2 by (by intros [? ?]).
      rewrite andb_false_r. apply IH.
  - cbn [tag_free]. destruct (Ascii.eqb_spec c "<"); [done|]. apply IH.
Qed.

Lemma tag_free_fixed s : tag_free s = true → sub_tags_from false s = s.
Proof.
  induction s as [|c s IH]; [done|]. cbn [tag_free sub_tags_from].
  intros [Hc Hs]%andb_true_iff. apply negb_true_iff in Hc. rewrite Hc.
  by rewrite IH.
Qed.

Lemma tag_free_no_tag s a body b :
  tag_free s = true → s = a ++ "<"%char :: body ++ ">"%char :: b → newline ∈ body.
Proof.
  revert s. induction a as [|c a IH]; intros s Hs ->; cbn [app tag_free] in Hs.
  - apply andb_true_iff in Hs as [Hc _]. apply negb_true_iff in Hc. cbn in Hc.
    destruct (lazy_until_gt (body ++ ">"%char :: b)) as [r|] eqn:E.
    + by rewrite bool_decide_eq_true_2 in Hc by eauto.
    + exact (lazy_until_gt_None _ body b E eq_refl).
  - apply andb_true_iff in Hs as [_ Hs]. by eapply IH.
Qed.

Lemma tag_free_take n s : tag_free s = true → tag_free (take n s) = true.
Proof.
  intros Hs. destruct (tag_free (take n s)) eqn:E; [done|]. exfalso.
  assert (Hex : ∃ a body b, take n s = a ++ "<"%char :: body ++ ">"%char :: b
                            ∧ (newline ∉ body)).
  { clear Hs. generalize dependent (take n s). intros t.
    induction t as [|c t IH]; [done|]. cbn [tag_free].
    intros [Hc | Ht]%andb_false_iff.
    - apply negb_false_iff, andb_true_iff in Hc as [->%Ascii.eqb_eq Hc].
      apply bool_decide_eq_true in Hc as [r Hr].
      apply lazy_until_gt_Some in Hr as (body & -> & _ & Hnl).
      by exists [], body, r.
    - destruct (IH Ht) as (a & body & b & -> & Hnl). by exists (c :: a), body, b. }
  destruct Hex as (a & body & b & Heq & Hnl). apply Hnl.
  apply (tag_free_no_tag s a body (b ++ drop n s) Hs).
  rewrite <- (take_drop n s) at 1. rewrite Heq.
  rewrite <- app_assoc. cbn [app]. by rewrite <- app_assoc.
Qed.

(** X3.  The text left by the tag removal holds no tag: a [<] that is left is
    not followed by a [>] on its line.  Removing tags a second time changes
    nothing. *)
Theorem re_sub_tags_leaves_no_tag s :
  (∀ a body b, re_sub_tags s = a ++ "<"%char :: body ++ ">"%char :: b → newline ∈ body) ∧
  re_sub_tags (re_sub_tags s) = re_sub_tags s.
Proof.
  pose proof (sub_tags_from_tag_free false s) as Hfree. fold (re_sub_tags s) in Hfree.
  split.
  - intros a body b. by apply tag_free_no_tag.
  - unfold re_sub_tags at 1. by apply tag_free_fixed.
Qed.

(** X4.  When [analyze_sentiment] calls the inference engine, it calls it
    once, on a text of at least 1 and at most 256 characters that holds no
    tag. *)
Theorem analyze_sentiment_engine_input sv comment text :
  SentimentPipeline text ∈ (analyze_sentiment sv comment).2 →
  (analyze_sentiment sv comment).2 = [SentimentPipeline text] ∧
  (0 < length text ≤ 256)%nat ∧
  tag_free text = true ∧
  ∀ a body b, text = a ++ "<"%char :: body ++ ">"%char :: b → newline ∈ body.
Proof.
  unfold analyze_sentiment.
  destruct (negb (truthy (strip (re_sub_tags comment)))) eqn:E; cbn [snd].
  { by intros ?%elem_of_nil. }
  intros [= ->]%list_elem_of_singleton.
  assert (Hfree : tag_free (take 256 (re_sub_tags comment)) = true).
  { apply tag_free_take, sub_tags_from_tag_free. }
  split; [done|]. split; [|split; [done|]].
  - rewrite length_take. split; [|lia].
    destruct (re_sub_tags comment); [by vm_compute in E | simpl; lia].
  - intros a body b. by apply tag_free_no_tag.
Qed.

Lemma escape_char_cases c :
  (c = "&"%char ∧ escape_char c = lit "&amp;") ∨
  (c = "<"%char ∧ escape_char c = lit "&lt;") ∨
  (c = ">"%char ∧ escape_char c = lit "&gt;") ∨
  (c = "034"%char ∧ escape_char c = lit "&quot;") ∨
  (c = "'"%char ∧ escape_char c = lit "&#x27;") ∨
  (c ≠ "&"%char ∧ c ≠ "<"%char ∧ c ≠ ">"%char ∧ c ≠ "034"%char ∧ c ≠ "'"%char ∧
   escape_char c = [c]).
Proof.
  unfold escape_char.
  destruct (Ascii.eqb_spec c "&"); [by left|].
  destruct (Ascii.eqb_spec c "<"); [by right; left|].
  destruct (Ascii.eqb_spec c ">"); [by right; right; left|].
  destruct (Ascii.eqb_spec c "034"); [by right; right; right; left|].
  destruct (Ascii.eqb_spec c "'"); [by right; right; right; right; left|].
  by repeat right.
Qed.

(** X5.  The escaped title holds none of the characters [<], [>], the double
    quote and the single quote. *)
Theorem html_escape_no_markup s c :
  c ∈ html_escape s →
  c ≠ "<"%char ∧ c ≠ ">"%char ∧ c ≠ "034"%char ∧ c ≠ "'"%char.
Proof.
  unfold html_escape. induction s as [|x s IH]; cbn [map concat].
  { by intros ?%elem_of_nil. }
  intros [Hc | Hc]%elem_of_app; [|by apply IH].
  destruct (escape_char_cases x)
    as [[_ E] | [[_ E] | [[_ E] | [[_ E] | [[_ E] | (? & ? & ? & ? & ? & E)]]]]];
    rewrite E in Hc.
  1-5: apply list_elem_of_In in Hc; cbn in Hc; intuition (subst; done).
  apply list_elem_of_singleton in Hc as ->. done.
Qed.

Lemma escape_char_inj c1 c2 r1 r2 :
  escape_char c1 ++ r1 = escape_char c2 ++ r2 → c1 = c2 ∧ r1 = r2.
Proof.
  destruct (escape_char_cases c1)
    as [[-> E1] | [[-> E1] | [[-> E1] | [[-> E1] | [[-> E1] | (? & ? & ? & ? & ? & E1)]]]]];
  destruct (escape_char_cases c2)
    as [[-> E2] | [[-> E2] | [[-> E2] | [[-> E2] | [[-> E2] | (? & ? & ? & ? & ? & E2)]]]]];
  rewrite ?E1, ?E2; cbn; intros [=]; subst; done.
Qed.

(** X6.  Escaping loses nothing: two titles with the same escaped text are
    the same title. *)
Theorem html_escape_injective s1 s2 :
  html_escape s1 = html_escape s2 → s1 = s2.
Proof.
  unfold html_escape. revert s2. induction s1 as [|c1 s1 IH]; intros [|c2 s2]; cbn [map concat].
  - done.
  - intros H. exfalso.
    destruct (escape_char_cases c2)
      as [[_ E] | [[_ E] | [[_ E] | [[_ E] | [[_ E] | (? & ? & ? & ? & ? & E)]]]]];
      rewrite E in H; discriminate.
  - intros H. exfalso.
    destruct (escape_char_cases c1)
      as [[_ E] | [[_ E] | [[_ E] | [[_ E] | [[_ E] | (? & ? & ? & ? & ? & E)]]]]];
      rewrite E in H; discriminate.
  - intros [-> H]%escape_char_inj. f_equal. by apply IH.
Qed.

Lemma html_escape_no_markup_witness :
  "&"%char ∈ html_escape (lit "Tom & <b>Jerry</b>") ∧
  ("&"%char ≠ "<"%char ∧ "&"%char ≠ ">"%char ∧ "&"%char ≠ "034"%char ∧ "&"%char ≠ "'"%char).
Proof.
  assert (H : "&"%char ∈ html_escape (lit "Tom & <b>Jerry</b>")).
  { apply list_elem_of_In. vm_compute. tauto. }
  split; [exact H|].
  exact (html_escape_no_markup (lit "Tom & <b>Jerry</b>") "&"%char H).
Defined.

Lemma html_escape_injective_witness :
  html_escape (lit "a<b") = html_escape (lit "a<b") ∧ lit "a<b" = lit "a<b".
Proof.
  split; [reflexivity|].
  apply (html_escape_injective (lit "a<b") (lit "a<b")). reflexivity.
Defined.

Lemma get_comments_loop_requests video_id pages later tok comments :
  (length comments < MAX_COMMENTS)%nat →
  linked pages = true →
  tokens_run_out pages = true ∨
    (MAX_COMMENTS ≤ length (comments ++ all_comments pages))%nat →
  ∃ r n,
    get_comments_loop video_id (map ThreadsOk pages ++ later) tok comments
      = Some (r, map (CommentThreadsList video_id 100)
                   (take n (tok :: map nextPageToken pages))) ∧
    (1 ≤ n ≤ length pages)%nat ∧
    ((length (comments ++ all_comments pages) < MAX_COMMENTS)%nat → n = length pages).
Proof.
  revert tok comments. induction pages as [|p pages IH]; intros tok comments Hlen Hlink Hend.
  - destruct Hend as [? | Hge]; [done|].
    unfold all_comments in Hge. simpl in Hge. rewrite app_nil_r in Hge. lia.
  - cbn [map app get_comments_loop]. rewrite all_comments_cons.
    pose proof (collect_items_spec (default [] (items p)) comments Hlen) as Hc.
    fold (page_comments p) in Hc.
    destruct (collect_items (default [] (items p)) comments) as [r | r].
    + destruct Hc as [-> Hge]. eexists _, 1%nat. split; [done|]. split; [simpl; lia|].
      rewrite app_assoc, length_app. lia.
    + destruct Hc as [-> Hlt]. fold (has_next p).
      destruct pages as [|q pages].
      * destruct Hend as [Hend | Hge].
        -- unfold tokens_run_out in Hend. simpl in Hend.
           apply negb_true_iff in Hend. rewrite Hend.
           eexists _, 1%nat. split; [done|]. simpl. lia.
        -- unfold all_comments in Hge. simpl in Hge. rewrite !app_nil_r in Hge. lia.
      * apply linked_cons in Hlink as [Hp Hlink]. rewrite Hp.
        destruct (IH (nextPageToken p) (comments ++ page_comments p))
          as (r & n & -> & Hn & Hall).
        -- done.
        -- done.
        -- destruct Hend as [Hend | Hge]; [by left | right]. by rewrite <- app_assoc.
        -- exists r, (S n). split; [done|]. split; [simpl in *; lia|].
           intros Hlt'. rewrite app_assoc in Hlt'. specialize (Hall Hlt'). simpl in *. lia.
Qed.

(** X7.  The page requests of [get_comments] all ask for 100 results; the
    first carries no page token and each later one carries the token of the
    page before.  There is at least one request, at most one per page, and
    exactly one per page when the pages hold fewer than 20 comments. *)
Theorem get_comments_requests video_id pages later :
  linked pages = true →
  tokens_run_out pages = true ∨ (20 ≤ length (all_comments pages))%nat →
  ∃ r n,
    get_comments video_id (map ThreadsOk pages ++ later)
      = Some (r, map (CommentThreadsList video_id 100) (take n (page_tokens pages))) ∧
    (1 ≤ n ≤ length pages)%nat ∧
    ((length (all_comments pages) < 20)%nat → n = length pages).
Proof.
  intros Hlink Hend.
  apply (get_comments_loop_requests video_id pages later None []);
    [unfold MAX_COMMENTS; simpl; lia | done | done].
Qed.

Lemma get_comments_requests_witness :
  linked demo_pages = true ∧
  (tokens_run_out demo_pages = true ∨ (20 ≤ length (all_comments demo_pages))%nat) ∧
  ∃ r n,
    get_comments (lit "ABC123") (map ThreadsOk demo_pages ++ demo_later)
      = Some (r, map (CommentThreadsList (lit "ABC123") 100) (take n (page_tokens demo_pages))) ∧
    (1 ≤ n ≤ length demo_pages)%nat ∧
    ((length (all_comments demo_pages) < 20)%nat → n = length demo_pages).
Proof.
  split; [reflexivity|]. split; [right; vm_compute; lia|].
  apply (get_comments_requests (lit "ABC123") demo_pages demo_later);
    [reflexivity | right; vm_compute; lia].
Defined.

(** The engine is called at most once for a comment, on a text of 1 to 256
    characters without tags. *)
Lemma analyze_sentiment_trace sv comment :
  (analyze_sentiment sv comment).2 = [] ∨
  ∃ text, (analyze_sentiment sv comment).2 = [SentimentPipeline text] ∧
          (0 < length text ≤ 256)%nat.
Proof.
  unfold analyze_sentiment.
  destruct (negb (truthy (strip (re_sub_tags comment)))) eqn:E; cbn [snd]; [by left|].
  right. eexists. split; [done|]. rewrite length_take. split; [|lia].
  destruct (re_sub_tags comment); [by vm_compute in E | simpl; lia].
Qed.

Lemma classify_loop_trace sv comments_data st all_text st' all_text' trace :
  classify_loop sv comments_data st all_text = (st', all_text', trace) →
  (length trace ≤ length comments_data)%nat ∧
  (∀ c, c ∈ trace → ∃ text, c = SentimentPipeline text ∧ (0 < length text ≤ 256)%nat) ∧
  all_text' = all_text ++ concat (map (λ c, lit " " ++ c.1) comments_data).
Proof.
  revert st all_text st' all_text' trace.
  induction comments_data as [|[comment like_count] rest IH];
    intros st all_text st' all_text' trace.
  - intros [= _ <- <-]. split; [done|]. split; [by intros c ?%elem_of_nil|].
    by rewrite app_nil_r.
  - cbn [classify_loop].
    pose proof (analyze_sentiment_trace sv comment) as Ht.
    destruct (analyze_sentiment sv comment) as [lab t]. cbn [snd] in Ht.
    match goal with |- context [classify_loop sv rest ?s ?a] =>
      specialize (IH s a); destruct (classify_loop sv rest s a) as [[st1 txt1] t1]
    end.
    intros [= _ <- <-]. destruct (IH _ _ _ eq_refl) as (Hlen & Hall & ->).
    split; [|split].
    + rewrite length_app. destruct Ht as [-> | (text & -> & _)]; simpl; lia.
    + intros c [Hc | Hc]%elem_of_app; [|by apply Hall].
      destruct Ht as [-> | (text & -> & Hb)]; [by apply elem_of_nil in Hc|].
      apply list_elem_of_singleton in Hc as ->. eauto.
    + cbn [map concat fst]. by rewrite <- !app_assoc.
Qed.

Lemma cloud_text_not_blank comments_data : forallb isspace (cloud_text comments_data) = false.
Proof.
  unfold cloud_text.
  destruct (forallb isspace (concat (map (λ c, lit " " ++ c.1) comments_data))) eqn:E; done.
Qed.

Lemma filter_is_inference_requests t :
  (∀ c, c ∈ t → ∃ id n token, c = CommentThreadsList id n token) →
  filter (λ c, is_inference c = true) t = [].
Proof.
  induction t as [|c t IH]; intros H; [done|].
  rewrite filter_cons. destruct (H c) as (id & n & token & ->); [apply list_elem_of_here|].
  cbn. rewrite decide_False by done. apply IH. intros c Hc. apply H. by apply list_elem_of_further.
Qed.

(** The four shapes the trace of a run can have. *)
Lemma home_trace sv link answers s out s' trace :
  home sv POST link answers s = Some (out, s', trace) →
  trace = [] ∨
  ∃ video_id,
    extract_video_id link = Return (Some video_id) ∧ video_id ≠ [] ∧
    (trace = [VideosList video_id] ∨
     ∃ comments_data t2,
       get_comments video_id answers = Some (comments_data, t2) ∧
       ((comments_data = [] ∧ trace = VideosList video_id :: t2) ∨
        (comments_data ≠ [] ∧
         ∃ t3, (length t3 ≤ length comments_data)%nat ∧
               (∀ c, c ∈ t3 → ∃ text, c = SentimentPipeline text ∧
                                      (0 < length text ≤ 256)%nat) ∧
               trace = VideosList video_id :: t2 ++ t3 ++
                         [WordCloudGenerate (cloud_text comments_data)]))).
Proof.
  intros Hrun.
  destruct (home_cases _ _ _ _ _ _ _ Hrun)
    as [(_ & _ & ->) | (video_id & Hid & Hne & Hc)]; [by left|].
  right. exists video_id. split; [done|]. split; [done|].
  destruct Hc as [(_ & _ & _ & ->) | (vs & cd & t2 & Hst & Hcom & Hc)]; [by left|].
  right. exists cd, t2. split; [done|].
  destruct Hc as [(-> & _ & _ & ->) | (st & txt & t3 & Hcd & Hloop & -> & _)]; [by left|].
  right. split; [done|].
  apply classify_loop_trace in Hloop as (Hlen & Hall & _).
  by exists t3.
Qed.

(** X8.  A run of [home] calls the inference engine at most 20 times, each
    time on a text of 1 to 256 characters. *)
Theorem home_inference_calls sv link answers s out s' trace :
  home sv POST link answers s = Some (out, s', trace) →
  (length (filter (λ c, is_inference c = true) trace) ≤ 20)%nat ∧
  ∀ text, SentimentPipeline text ∈ trace → (0 < length text ≤ 256)%nat.
Proof.
  intros Hrun.
  destruct (home_trace _ _ _ _ _ _ _ Hrun) as [-> | (video_id & _ & _ & Ht)].
  { split; [rewrite filter_nil; simpl; lia | by intros text ?%elem_of_nil]. }
  destruct Ht as [-> | (cd & t2 & Hcom & Ht)].
  { split; [rewrite filter_cons, decide_False, filter_nil by done; simpl; lia|].
    intros text Hin. apply list_elem_of_singleton in Hin. done. }
  pose proof (get_comments_loop_trace _ _ _ _ _ _ Hcom) as Ht2.
  pose proof (get_comments_at_most_20 _ _ _ _ Hcom) as H20.
  destruct Ht as [(-> & ->) | (Hcd & t3 & Hlen & Hall & ->)].
  - split.
    + rewrite filter_cons, decide_False by done.
      rewrite filter_is_inference_requests by done. simpl. lia.
    + intros text [[=] | Hin]%elem_of_cons.
      by apply Ht2 in Hin as (? & ? & ? & [=]).
  - split.
    + rewrite filter_cons, decide_False by done.
      rewrite !filter_app, filter_is_inference_requests by done.
      rewrite filter_cons, decide_False by done. cbn [app].
      rewrite app_nil_r. pose proof (length_filter (λ c, is_inference c = true) t3). lia.
    + intros text [[=] | Hin]%elem_of_cons.
      apply elem_of_app in Hin as [Hin | Hin].
      { by apply Ht2 in Hin as (? & ? & ? & [=]). }
      apply elem_of_app in Hin as [Hin | Hin]; [|by apply list_elem_of_singleton in Hin].
      by apply Hall in Hin as (text' & [= <-] & ?).
Qed.

(** X9.  A run of [home] calls the word-cloud renderer at most once, as its
    last external call, and only when comments were collected.  The text it
    hands over is the texts of all collected comments, each behind a space, or
    the placeholder when that is blank: it is never blank. *)
Theorem home_renderer_text sv link answers s out s' trace :
  home sv POST link answers s = Some (out, s', trace) →
  (length (filter (λ c, is_render c = true) trace) ≤ 1)%nat ∧
  ∀ text, WordCloudGenerate text ∈ trace →
    forallb isspace text = false ∧
    ∃ video_id comments_data t2,
      extract_video_id link = Return (Some video_id) ∧
      get_comments video_id answers = Some (comments_data, t2) ∧
      comments_data ≠ [] ∧
      text = cloud_text comments_data ∧
      last trace = Some (WordCloudGenerate text).
Proof.
  intros Hrun.
  assert (Hreq : ∀ t, (∀ c, c ∈ t → ∃ id n token, c = CommentThreadsList id n token) →
                      filter (λ c, is_render c = true) t = [] ∧
                      ∀ text, WordCloudGenerate text ∉ t).
  { intros t Ht. split.
    - induction t as [|c t IH]; [done|]. rewrite filter_cons.
      destruct (Ht c) as (? & ? & ? & ->); [apply list_elem_of_here|].
      cbn. rewrite decide_False by done. apply IH. intros c Hc. apply Ht.
      by apply list_elem_of_further.
    - intros text Hin. by apply Ht in Hin as (? & ? & ? & [=]). }
  assert (Hinf : ∀ t, (∀ c, c ∈ t → ∃ text, c = SentimentPipeline text ∧
                                             (0 < length text ≤ 256)%nat) →
                      filter (λ c, is_render c = true) t = [] ∧
                      ∀ text, WordCloudGenerate text ∉ t).
  { intros t Ht. split.
    - induction t as [|c t IH]; [done|]. rewrite filter_cons.
      destruct (Ht c) as (? & -> & _); [apply list_elem_of_here|].
      cbn. rewrite decide_False by done. apply IH. intros c Hc. apply Ht.
      by apply list_elem_of_further.
    - intros text Hin. by apply Ht in Hin as (? & [=] & _). }
  destruct (home_trace _ _ _ _ _ _ _ Hrun) as [-> | (video_id & Hid & Hne & Ht)].
  { split; [rewrite filter_nil; simpl; lia | by intros text ?%elem_of_nil]. }
  destruct Ht as [-> | (cd & t2 & Hcom & Ht)].
  { split; [rewrite filter_cons, decide_False, filter_nil by done; simpl; lia|].
    intros text Hin. apply list_elem_of_singleton in Hin. done. }
  destruct (Hreq t2 (get_comments_loop_trace _ _ _ _ _ _ Hcom)) as [Hf2 Hn2].
  destruct Ht as [(-> & ->) | (Hcd & t3 & Hlen & Hall & ->)].
  - split.
    + rewrite filter_cons, decide_False by done. rewrite Hf2. simpl. lia.
    + intros text [[=] | Hin]%elem_of_cons. by apply Hn2 in Hin.
  - destruct (Hinf t3 Hall) as [Hf3 Hn3]. split.
    + rewrite filter_cons, decide_False by done.
      rewrite !filter_app, Hf2, Hf3.
      rewrite filter_cons, decide_True, filter_nil by done. simpl. lia.
    + intros text [[=] | Hin]%elem_of_cons.
      apply elem_of_app in Hin as [Hin | Hin]; [by apply Hn2 in Hin|].
      apply elem_of_app in Hin as [Hin | Hin]; [by apply Hn3 in Hin|].
      apply list_elem_of_singleton in Hin as [= ->].
      split; [apply cloud_text_not_blank|].
      exists video_id, cd, t2. repeat (split; [done|]).
      rewrite app_comm_cons, !app_assoc. apply last_snoc.
Qed.

(** What a run leaves in the store: the value it found, or the complete
    analysis of the 1 to 20 comments it collected. *)
Lemma home_store sv method link answers s out s' trace :
  home sv method link answers s = Some (out, s', trace) →
  s' = s ∨ complete_report s'.
Proof.
  destruct method; [by intros [= _ <- _]; left|]. intros Hrun.
  destruct (home_cases _ _ _ _ _ _ _ Hrun)
    as [(_ & -> & _) | (video_id & Hid & Hne & [(_ & -> & _) | (vs & cd & t2 & Hst & Hcom & Hc)])];
    [by left | by left |].
  destruct Hc as [(_ & -> & _) | (st & txt & t3 & Hcd & Hloop & _ & Hrender)]; [by left|].
  destruct Hrender as [(image & _ & _ & ->) | (e & _ & _ & ->)]; [right | by left].
  exists vs, (with_top_liked_comments st (top_liked cd)), image.
  split; [done|]. cbn [positive negative neutral with_top_liked_comments].
  pose proof (get_comments_at_most_20 _ _ _ _ Hcom) as H20.
  pose proof (buckets_partition sv cd) as Hp.
  apply Permutation_length in Hp. rewrite !length_app, length_fmap in Hp.
  apply classify_loop_spec in Hloop as (H1 & H2 & H3 & _). simpl in H1, H2, H3.
  rewrite H1, H2, H3.
  assert (0 < length cd)%nat by (destruct cd; [done | simpl; lia]).
  lia.
Qed.

Lemma report_data_invariant_aux s :
  reachable s → s = ∅ ∨ complete_report s.
Proof.
  induction 1 as [|sv method link answers s out s' trace _ IH Hrun]; [by left|].
  destruct (home_store _ _ _ _ _ _ _ _ Hrun) as [-> | ?]; [done | by right].
Qed.

(** X10.  [report_data] is always the empty dictionary or a complete
    analysis: all five fields, with counts that are not negative and add up
    to between 1 and 20. *)
Theorem report_data_invariant s :
  reachable s → s = ∅ ∨ complete_report s.
Proof. apply report_data_invariant_aux. Qed.

(** X11.  On every value [report_data] can take, [download_report] returns:
    the message when no analysis was stored, else the document compiled from
    the stored fields.  No key is ever missing. *)
Theorem download_report_never_raises doc_build s :
  reachable s →
  (s = ∅ ∧ download_report doc_build s = Return (PlainText (lit "No report available."))) ∨
  (∃ vs st image,
     s = report_dict vs st image ∧
     download_report doc_build s =
       Return (SendFile (doc_build (report_elements vs st image))
                 "YouTube_Analysis_Report.pdf" "application/pdf")).
Proof.
  intros [-> | (vs & st & image & -> & _)]%report_data_invariant_aux.
  - by left.
  - right. exists vs, st, image. split; [done|]. apply download_report_stored.
Qed.

Lemma strongly_sorted_app_le {A} (R : A → A → Prop) l1 l2 x y :
  StronglySorted R (l1 ++ l2) → x ∈ l1 → y ∈ l2 → R x y.
Proof.
  induction l1 as [|a l1 IH]; cbn [app]; [by intros _ ?%elem_of_nil|].
  intros Hs [-> | Hx]%elem_of_cons Hy.
  - apply StronglySorted_inv in Hs as [_ Hall].
    rewrite Forall_forall in Hall. apply Hall, elem_of_app. by right.
  - apply StronglySorted_inv in Hs as [Hs _]. by apply IH.
Qed.

(** X12.  The comments that are not among the top liked are as many as the
    collected comments beyond the fifth, and none of them has more likes than
    any comment selected. *)
Theorem top_liked_are_the_most_liked comments_data :
  ∃ rest,
    top_liked comments_data ++ rest ≡ₚ comments_data ∧
    length rest = (length comments_data - 5)%nat ∧
    ∀ c d, c ∈ top_liked comments_data → d ∈ rest → d.2 ≤ c.2.
Proof.
  exists (drop 5 (sorted_reverse snd comments_data)). unfold top_liked.
  split; [by rewrite take_drop, sorted_reverse_perm|].
  split.
  { rewrite length_drop. by rewrite (Permutation_length (sorted_reverse_perm snd comments_data)). }
  intros c d Hc Hd.
  assert (Hs : StronglySorted (λ a b : comment, b.2 ≤ a.2)
                 (take 5 (sorted_reverse snd comments_data)
                  ++ drop 5 (sorted_reverse snd comments_data))).
  { rewrite take_drop. apply sorted_reverse_sorted. }
  exact (strongly_sorted_app_le _ _ _ c d Hs Hc Hd).
Qed.

(** X13.  A run of [home] that renders without error message shows the
    statistics of the first item the platform returned for the identifier of
    the link: its title, and for each count the value given or 0. *)
Theorem home_renders_first_item sv link answers s ctx s' trace :
  home sv POST link answers s = Some (Return (RenderIndex ctx), s', trace) →
  error_message ctx = [] →
  ∃ video_id item others,
    extract_video_id link = Return (Some video_id) ∧
    videos_list sv video_id = VideosOk (item :: others) ∧
    video_stats ctx =
      Some {| title := snippet_title item;
              views := default (JInt 0) (viewCount item);
              likes := default (JInt 0) (stat_likeCount item);
              comments_count := default (JInt 0) (commentCount item) |}.
Proof.
  intros Hrun Herr.
  destruct (home_cases _ _ _ _ _ _ _ Hrun) as [(Hinv & _ & _) | (video_id & Hid & Hne & Hc)].
  { destruct (home_invalid_link sv link answers s Hinv) as (out & Hrun' & Hctx).
    rewrite Hrun' in Hrun. injection Hrun as -> _ _.
    by rewrite (Hctx ctx eq_refl) in Herr. }
  destruct Hc as [(_ & _ & ? & _) | (vs & cd & t2 & Hst & Hcom & Hc)]; [done|].
  assert (Hvs : video_stats ctx = Some vs).
  { destruct Hc as [(_ & _ & [= ->] & _) | (st & txt & t3 & _ & Hloop & _ & Hrender)];
      [done|].
    destruct Hrender as [(image & _ & [= ->] & _) | (e & _ & [=] & _)].
    by apply classify_loop_spec in Hloop as (_ & _ & _ & _ & _ & _ & ? & _). }
  unfold get_video_stats in Hst.
  destruct (videos_list sv video_id) as [|[|item others]] eqn:Hv; [done | done |].
  cbn [fst] in Hst. injection Hst as <-. by exists video_id, item, others.
Qed.

(** ** The further properties at sample inputs *)

Lemma analyze_sentiment_engine_input_witness :
  SentimentPipeline (lit "nice video")
    ∈ (analyze_sentiment demo_services (lit "nice <b>video</b>")).2 ∧
  (analyze_sentiment demo_services (lit "nice <b>video</b>")).2
    = [SentimentPipeline (lit "nice video")] ∧
  (0 < length (lit "nice video") ≤ 256)%nat ∧
  tag_free (lit "nice video") = true ∧
  ∀ a body b, lit "nice video" = a ++ "<"%char :: body ++ ">"%char :: b → newline ∈ body.
Proof.
  assert (H : SentimentPipeline (lit "nice video")
                ∈ (analyze_sentiment demo_services (lit "nice <b>video</b>")).2).
  { apply list_elem_of_In. vm_compute. tauto. }
  split; [exact H|].
  exact (analyze_sentiment_engine_input demo_services (lit "nice <b>video</b>")
           (lit "nice video") H).
Defined.

Lemma home_inference_calls_witness :
  ∃ out s' trace,
    home demo_services POST demo_link demo_answers ∅ = Some (out, s', trace) ∧
    (length (filter (λ c, is_inference c = true) trace) ≤ 20)%nat ∧
    ∀ text, SentimentPipeline text ∈ trace → (0 < length text ≤ 256)%nat.
Proof.
  eexists _, _, _. split; [vm_compute; reflexivity|].
  eapply (home_inference_calls demo_services demo_link demo_answers ∅).
  vm_compute. reflexivity.
Defined.

Lemma home_renderer_text_witness :
  ∃ out s' trace,
    home demo_services POST demo_link demo_answers ∅ = Some (out, s', trace) ∧
    (length (filter (λ c, is_render c = true) trace) ≤ 1)%nat ∧
    ∀ text, WordCloudGenerate text ∈ trace →
      forallb isspace text = false ∧
      ∃ video_id comments_data t2,
        extract_video_id demo_link = Return (Some video_id) ∧
        get_comments video_id demo_answers = Some (comments_data, t2) ∧
        comments_data ≠ [] ∧
        text = cloud_text comments_data ∧
        last trace = Some (WordCloudGenerate text).
Proof.
  eexists _, _, _. split; [vm_compute; reflexivity|].
  eapply (home_renderer_text demo_services demo_link demo_answers ∅).
  vm_compute. reflexivity.
Defined.

Lemma home_renders_first_item_witness :
  ∃ ctx s' trace,
    home demo_services POST demo_link demo_answers ∅
      = Some (Return (RenderIndex ctx), s', trace) ∧
    error_message ctx = [] ∧
    ∃ video_id item others,
      extract_video_id demo_link = Return (Some video_id) ∧
      videos_list demo_services video_id = VideosOk (item :: others) ∧
      video_stats ctx =
        Some {| title := snippet_title item;
                views := default (JInt 0) (viewCount item);
                likes := default (JInt 0) (stat_likeCount item);
                comments_count := default (JInt 0) (commentCount item) |}.
Proof.
  eexists _, _, _. split; [vm_compute; reflexivity|]. split; [reflexivity|].
  eapply (home_renders_first_item demo_services demo_link demo_answers ∅);
    [vm_compute; reflexivity | reflexivity].
Defined.

Lemma report_data_invariant_witness :
  ∃ s, reachable s ∧ s ≠ ∅ ∧ (s = ∅ ∨ complete_report s).
Proof.
  assert (H : ∃ s, reachable s ∧ s ≠ ∅).
  { eexists. split.
    - eapply (reachable_home demo_services POST demo_link demo_answers ∅);
        [apply reachable_start | vm_compute; reflexivity].
    - intros Heq. apply (f_equal (λ m : gmap string pyval, m !! "positive")) in Heq.
      vm_compute in Heq. discriminate. }
  destruct H as (s & Hs & Hne). exists s. split; [exact Hs|]. split; [exact Hne|].
  exact (report_data_invariant s Hs).
Defined.

Lemma download_report_never_raises_witness :
  ∃ s, reachable s ∧ s ≠ ∅ ∧
    ((s = ∅ ∧ download_report demo_doc_build s
               = Return (PlainText (lit "No report available."))) ∨
     (∃ vs st image,
        s = report_dict vs st image ∧
        download_report demo_doc_build s =
          Return (SendFile (demo_doc_build (report_elements vs st image))
                    "YouTube_Analysis_Report.pdf" "application/pdf"))).
Proof.
  assert (H : ∃ s, reachable s ∧ s ≠ ∅).
  { eexists. split.
    - eapply (reachable_home demo_services POST demo_link demo_answers ∅);
        [apply reachable_start | vm_compute; reflexivity].
    - intros Heq. apply (f_equal (λ m : gmap string pyval, m !! "positive")) in Heq.
      vm_compute in Heq. discriminate. }
  destruct H as (s & Hs & Hne). exists s. split; [exact Hs|]. split; [exact Hne|].
  exact (download_report_never_raises demo_doc_build s Hs).
Defined.
